(** * Data catalog: catalog lookups, schema formatting and query generation

    A shallow embedding of the pure functions of the data-catalog site:
    - [site/src/scripts/bigquery.js]: [generateQuery], [generatePythonRequest];
    - the earlier BigQuery script: [filterNestedColumns], [generateQuery];
    - [site/src/utils/schema.js]: [formatSchema];
    - [utils/catalog.js]: [getProjectKeys], [getDatasets],
      [getDatasetByName], [getDatasetNames] (and the single-project
      version that preceded it).

    JavaScript strings are modelled as [string], read as UTF-8 text.  All
    the characters the code searches for ('.', line feed, the letters of
    LIMIT, decimal digits) are ASCII, and an ASCII byte never occurs inside
    a multi-byte UTF-8 sequence, so searching bytes and searching UTF-16
    code units find the same occurrences. *)

From Stdlib Require Import List String Ascii Bool Arith ZArith Permutation Sorted Lia.
Import ListNotations.

Local Open Scope list_scope.
Local Open Scope string_scope.
Local Open Scope nat_scope.

(** ** JavaScript string and array primitives used by the code *)

Module JS.

(** The line feed, written [\n] in the source. *)
Definition LF : string := String (ascii_of_nat 10) EmptyString.

(** The double quote. *)
Definition DQ : string := String (ascii_of_nat 34) EmptyString.

(** [s.startsWith(p)]. *)
Fixpoint startsWith (s p : string) {struct p} : bool :=
  match p, s with
  | EmptyString, _ => true
  | String _ _, EmptyString => false
  | String a p', String b s' => Ascii.eqb a b && startsWith s' p'
  end.

(** [s.includes(needle)]: [needle] occurs somewhere in [s]. *)
Fixpoint includes (s needle : string) : bool :=
  startsWith s needle ||
  match s with
  | EmptyString => false
  | String _ s' => includes s' needle
  end.

(** [s.split(sep)] for a one-character separator: the pieces between the
    occurrences of [sep]; always at least one piece. *)
Fixpoint split (sep : ascii) (s : string) : list string :=
  match s with
  | EmptyString => [EmptyString]
  | String c s' =>
      if Ascii.eqb c sep then EmptyString :: split sep s'
      else match split sep s' with
           | piece :: pieces => String c piece :: pieces
           | [] => [String c EmptyString]
           end
  end.

(** [pieces[0]] of a split: a split is never empty, the default is unused. *)
Definition first (pieces : list string) : string := hd EmptyString pieces.

(** [array.join(sep)]. *)
Fixpoint join (sep : string) (items : list string) : string :=
  match items with
  | [] => EmptyString
  | [x] => x
  | x :: rest => x ++ sep ++ join sep rest
  end.

(** [array.includes(x)] on an array of strings. *)
Definition array_includes (items : list string) (x : string) : bool :=
  existsb (String.eqb x) items.

(** *** The regular expression [/LIMIT\s+\d+/i] *)

(** [\d]: a decimal digit. *)
Definition isDigit (c : ascii) : bool :=
  (48 <=? nat_of_ascii c) && (nat_of_ascii c <=? 57).

(** A letter of the pattern under the [i] flag: its upper-case or its
    lower-case form (no character outside ASCII folds to an ASCII letter
    when the pattern has no [u] flag). *)
Definition letter (upper lower c : ascii) : bool :=
  Ascii.eqb c upper || Ascii.eqb c lower.

(** [\s] at the head of [s]: the rest of the string after one white-space
    or line-terminator character.  The characters are U+0009 to U+000D,
    U+0020, U+00A0, U+1680, U+2000 to U+200A, U+2028, U+2029, U+202F,
    U+205F, U+3000 and U+FEFF, the last ones in their UTF-8 form. *)
Definition whiteSpace (s : string) : option string :=
  match s with
  | EmptyString => None
  | String c rest =>
      let n := nat_of_ascii c in
      if ((9 <=? n) && (n <=? 13)) || (n =? 32) then Some rest
      else
        match rest with
        | String d rest1 =>
            let m := nat_of_ascii d in
            if (n =? 194) && (m =? 160) then Some rest1
            else
              match rest1 with
              | String e rest2 =>
                  let k := nat_of_ascii e in
                  if (n =? 225) && (m =? 154) && (k =? 128) then Some rest2
                  else if (n =? 226) && (m =? 128) &&
                          (((128 <=? k) && (k <=? 138)) || (k =? 168) ||
                           (k =? 169) || (k =? 175)) then Some rest2
                  else if (n =? 226) && (m =? 129) && (k =? 159) then Some rest2
                  else if (n =? 227) && (m =? 128) && (k =? 128) then Some rest2
                  else if (n =? 239) && (m =? 187) && (k =? 191) then Some rest2
                  else None
              | EmptyString => None
              end
        | EmptyString => None
        end
  end.

(** [\s*], greedy: [fuel] bounds the number of characters removed; the
    length of the string is always enough. *)
Fixpoint whiteSpaces (fuel : nat) (s : string) : string :=
  match fuel with
  | O => s
  | S fuel' =>
      match whiteSpace s with
      | Some rest => whiteSpaces fuel' rest
      | None => s
      end
  end.

(** [\d*], greedy. *)
Fixpoint digits (s : string) : string :=
  match s with
  | String c rest => if isDigit c then digits rest else s
  | EmptyString => s
  end.

(** [/LIMIT\s+\d+/i] anchored at the head of [s]: the rest of the string
    after the match.  The white space and the digits are taken greedily;
    as no character is both, no shorter run of white space can match when
    the longest one does not. *)
Definition matchLimit (s : string) : option string :=
  match s with
  | String l (String i (String m (String i' (String t rest)))) =>
      if letter "L" "l" l && letter "I" "i" i && letter "M" "m" m &&
         letter "I" "i" i' && letter "T" "t" t
      then
        match whiteSpace rest with
        | Some rest1 =>
            match whiteSpaces (String.length rest1) rest1 with
            | String d rest2 => if isDigit d then Some (digits rest2) else None
            | EmptyString => None
            end
        | None => None
        end
      else None
  | _ => None
  end.

(** [s.replace(/LIMIT\s+\d+/i, replacement)]: the pattern has no [g] flag,
    so only the leftmost match is replaced; the replacement used by the
    code has no [$] pattern. *)
Fixpoint replaceLimit (s replacement : string) : string :=
  match matchLimit s with
  | Some rest => replacement ++ rest
  | None =>
      match s with
      | EmptyString => EmptyString
      | String c s' => String c (replaceLimit s' replacement)
      end
  end.

End JS.

(** ** Query generation *)

(** The earlier BigQuery script: the filter is a function of its own and
    [generateQuery] has no case for an empty selection. *)
Module Legacy.

Definition filterNestedColumns (columnNames : list string) : list string :=
  filter (fun columnName =>
            if JS.includes columnName "." then
              let parentColumnName := JS.first (JS.split "." columnName) in
              negb (JS.array_includes columnNames parentColumnName)
            else true)
         columnNames.

Definition generateQuery (projectKey datasetName tableName : string)
    (columnNames : list string) : string :=
  let filteredColumns := filterNestedColumns columnNames in
  let formattedColumns := JS.join ("," ++ JS.LF ++ "  ") filteredColumns in
  "SELECT" ++ JS.LF ++
  "  " ++ formattedColumns ++ JS.LF ++
  "FROM `" ++ projectKey ++ "." ++ datasetName ++ "." ++ tableName ++ "`" ++ JS.LF ++
  "LIMIT 100".

End Legacy.

(** [site/src/scripts/bigquery.js].  The column selection is
    [string[] | null]: [None] is [null] (or an absent argument). *)
Definition generateQuery (projectKey datasetName tableName : string)
    (columnNames : option (list string)) : string :=
  match columnNames with
  | None | Some [] =>
      "SELECT" ++ JS.LF ++ "  *" ++ JS.LF ++
      "FROM `" ++ projectKey ++ "." ++ datasetName ++ "." ++ tableName ++ "`" ++ JS.LF ++
      "LIMIT 100"
  | Some columnNames =>
      let filteredColumns :=
        filter (fun columnName =>
                  if JS.includes columnName "." then
                    let parentColumnName := JS.first (JS.split "." columnName) in
                    negb (JS.array_includes columnNames parentColumnName)
                  else true)
               columnNames in
      let formattedColumns := JS.join ("," ++ JS.LF ++ "  ") filteredColumns in
      "SELECT" ++ JS.LF ++ "  " ++ formattedColumns ++ JS.LF ++
      "FROM `" ++ projectKey ++ "." ++ datasetName ++ "." ++ tableName ++ "`" ++ JS.LF ++
      "LIMIT 100"
  end.

(** The Python snippet for the BigQuery API. [embeddedQuery] is the
    [indentedQuery] of the source: the query, its LIMIT rewritten, every
    line indented by four spaces. *)
Definition embeddedQuery (projectKey datasetName tableName : string)
    (selectedColumns : option (list string)) : string :=
  let query := generateQuery projectKey datasetName tableName selectedColumns in
  let parametrizedQuery := JS.replaceLimit query "LIMIT @limit" in
  let indentedQuery :=
    JS.join JS.LF
      (map (fun line => "    " ++ line) (JS.split (ascii_of_nat 10) parametrizedQuery)) in
  indentedQuery.

Definition generatePythonRequest (projectKey datasetName tableName : string)
    (selectedColumns : option (list string)) : string :=
  let indentedQuery := embeddedQuery projectKey datasetName tableName selectedColumns in
  JS.join JS.LF
    ["from google.cloud import bigquery";
     "from google.api_core.exceptions import GoogleAPIError";
     "from google.auth.exceptions import DefaultCredentialsError";
     EmptyString;
     "# -----------------------------------------------------";
     "# Autenticação:";
     "# Antes de rodar o script execute:";
     "# gcloud auth application-default login";
     "# -----------------------------------------------------";
     EmptyString;
     "PROJECT_ID = " ++ JS.DQ ++ projectKey ++ JS.DQ;
     "TABLE_ID = " ++ JS.DQ ++ projectKey ++ "." ++ datasetName ++ "." ++ tableName ++ JS.DQ;
     EmptyString;
     "client = bigquery.Client(project=PROJECT_ID)";
     EmptyString;
     "def run_query(limit=100):";
     "    try:";
     "        query = " ++ JS.DQ ++ JS.DQ ++ JS.DQ;
     indentedQuery;
     "        " ++ JS.DQ ++ JS.DQ ++ JS.DQ;
     EmptyString;
     "        job_config = bigquery.QueryJobConfig(";
     "            query_parameters=[";
     "                bigquery.ScalarQueryParameter(" ++ JS.DQ ++ "limit" ++ JS.DQ ++ ", " ++ JS.DQ ++ "INT64" ++ JS.DQ ++ ", limit),";
     "            ],";
     "            use_query_cache=True,";
     "            dry_run=False,";
     "        )";
     EmptyString;
     "        job = client.query(query, job_config=job_config)";
     "        results = job.result(timeout=60)";
     EmptyString;
     "        return [dict(row) for row in results]";
     EmptyString;
     "    except (GoogleAPIError, DefaultCredentialsError) as exc:";
     "        raise RuntimeError(f" ++ JS.DQ ++ "Erro ao executar query: {exc}" ++ JS.DQ ++ ") from exc";
     EmptyString;
     EmptyString;
     "if __name__ == " ++ JS.DQ ++ "__main__" ++ JS.DQ ++ ":";
     "    for row in run_query(limit=100):";
     "        print(row)";
     EmptyString].

(** ** Catalog data *)

(** A plain object as [JSON.parse] builds it: its own enumerable
    properties, in the order [Object.keys] lists them.  The keys of an
    object are pairwise distinct ([distinct_keys]). *)
Definition JSObject (V : Type) : Type := list (string * V).

Definition Object_keys {V} (o : JSObject V) : list string := map fst o.

Definition Object_entries {V} (o : JSObject V) : list (string * V) := o.

Definition distinct_keys {V} (o : JSObject V) : Prop := NoDup (Object_keys o).

(** The own property [key] of [o], if there is one. *)
Fixpoint own {V} (o : JSObject V) (key : string) : option V :=
  match o with
  | [] => None
  | (k, v) :: rest => if String.eqb k key then Some v else own rest key
  end.

(** The property names every plain object inherits from
    [Object.prototype]. *)
Definition Object_prototype_names : list string :=
  ["constructor"; "__defineGetter__"; "__defineSetter__"; "hasOwnProperty";
   "__lookupGetter__"; "__lookupSetter__"; "isPrototypeOf";
   "propertyIsEnumerable"; "toString"; "valueOf"; "__proto__";
   "toLocaleString"].

(** What [o[key]] evaluates to: an own value, a member of
    [Object.prototype] found along the prototype chain (a built-in
    function, or the prototype itself for [__proto__]), or [undefined]. *)
Inductive property (V : Type) : Type :=
| Own (v : V)
| Inherited
| Undefined.
Arguments Own {V} v.
Arguments Inherited {V}.
Arguments Undefined {V}.

Definition Get {V} (o : JSObject V) (key : string) : property V :=
  match own o key with
  | Some v => Own v
  | None =>
      if JS.array_includes Object_prototype_names key then Inherited
      else Undefined
  end.

(** Truthiness of [o[key]] where the own values are objects: every object
    and every function is truthy, [undefined] is not. *)
Definition truthy {V} (p : property V) : bool :=
  match p with
  | Own _ | Inherited => true
  | Undefined => false
  end.

Module ColumnInfo.
Record t : Type := { type : string; description : option string }.
End ColumnInfo.

Module Table.
Record t : Type :=
  { name : string; created_at : string; schema : JSObject ColumnInfo.t }.
End Table.

Module DatasetRaw.
Record t : Type := { description : string; tables : list Table.t }.
End DatasetRaw.

(** The catalog document: project key, then dataset name. *)
Definition CatalogData : Type := JSObject (JSObject DatasetRaw.t).

(** ** Schema formatting ([site/src/utils/schema.js]) *)

Module FormattedColumn.
Record t : Type := { name : string; type : string; description : string }.
End FormattedColumn.

(** [value || fallback] for an optional string: [undefined] and the empty
    string are falsy. *)
Definition or_else (value : option string) (fallback : string) : string :=
  match value with
  | None => fallback
  | Some EmptyString => fallback
  | Some v => v
  end.

Definition formatSchema (schema : JSObject ColumnInfo.t) : list FormattedColumn.t :=
  map (fun '(columnName, columnInfo) =>
         {| FormattedColumn.name := columnName;
            FormattedColumn.type := ColumnInfo.type columnInfo;
            FormattedColumn.description :=
              or_else (ColumnInfo.description columnInfo) "Sem descrição" |})
      (Object_entries schema).

(** ** Exceptions *)

Inductive exception : Type :=
| Error (message : string)   (* [throw new Error(message)] *)
| TypeError                  (* a property read on [undefined] *)
| SyntaxError                (* [JSON.parse] on malformed text *)
| SystemError (code : string). (* [fs.readFileSync], such as ENOENT *)

Inductive completion (A : Type) : Type :=
| Normal (a : A)
| Throw (e : exception).
Arguments Normal {A} a.
Arguments Throw {A} e.

Definition bind {A B} (c : completion A) (k : A -> completion B) : completion B :=
  match c with
  | Normal a => k a
  | Throw e => Throw e
  end.

Notation "x <- c ;; k" := (bind c (fun x => k))
  (at level 61, c at next level, right associativity).

(** [items.forEach(body)] where [body] updates the state [S] (an array
    being pushed to, a [Set] being added to) and may throw. *)
Fixpoint forEach {A S} (items : list A) (body : A -> S -> completion S) (s : S)
  : completion S :=
  match items with
  | [] => Normal s
  | x :: rest => s' <- body x s ;; forEach rest body s'
  end.

(** [items.map(f)] where [f] may throw. *)
Fixpoint mapM {A B} (f : A -> completion B) (items : list A) : completion (list B) :=
  match items with
  | [] => Normal []
  | x :: rest => y <- f x ;; ys <- mapM f rest ;; Normal (y :: ys)
  end.

(** ** Time values *)

(** The numbers the catalog code computes with: [getTime()] of a date is an
    integral number of milliseconds, or NaN for an invalid date;
    [Math.max] adds minus infinity. *)
Inductive number : Type :=
| NaN
| NegInfinity
| Finite (z : Z).

(** [Math.max(...values)]: minus infinity for no argument, NaN when an
    argument is NaN. *)
Definition Math_max (values : list number) : number :=
  fold_left (fun highest value =>
               match highest, value with
               | NaN, _ | _, NaN => NaN
               | NegInfinity, x | x, NegInfinity => x
               | Finite a, Finite b => Finite (Z.max a b)
               end)
            values NegInfinity.

(** A [Set] of strings in insertion order. *)
Definition Set_add (elements : list string) (x : string) : list string :=
  if JS.array_includes elements x then elements else (elements ++ [x])%list.

(** ** The catalog module *)

Module Dataset.
Record t : Type :=
  { name : string; project : string; description : string;
    tableCount : nat; lastUpdated : number }.
End Dataset.

(** [DatasetFull] declares a string and an array; the fields are optional
    here because [getDatasetByName] reads them off whatever
    [catalog[projectKey][datasetName]] is: [None] is [undefined]. *)
Module DatasetFull.
Record t : Type :=
  { name : string; project : string; description : option string;
    tables : option (list Table.t) }.
End DatasetFull.

Definition property_description (p : property DatasetRaw.t) : option string :=
  match p with
  | Own raw => Some (DatasetRaw.description raw)
  | Inherited | Undefined => None
  end.

Definition property_tables (p : property DatasetRaw.t) : option (list Table.t) :=
  match p with
  | Own raw => Some (DatasetRaw.tables raw)
  | Inherited | Undefined => None
  end.

Section Catalog.

(** The outcome of [loadCatalogData()]: reading [catalog.json] and decoding
    it twice, or the exception either step throws.  The file does not
    change during a build, so every call has the same outcome. *)
Variable loadCatalogData : completion CatalogData.

(** [new Date(created_at).getTime()]. *)
Variable getTime : string -> number.

Definition getProjectKeys : completion (list string) :=
  catalog <- loadCatalogData ;;
  Normal (Object_keys catalog).

(** [o[key]] for a [key] that [Object.keys(o)] listed: the own value.  The
    other branch is never taken for such a key ([ownValue_keys]). *)
Definition ownValue {V} (o : JSObject V) (key : string) : completion V :=
  match own o key with
  | Some v => Normal v
  | None => Throw TypeError
  end.

Definition getDatasets : completion (list Dataset.t) :=
  catalog <- loadCatalogData ;;
  projectKeys <- getProjectKeys ;;
  forEach projectKeys
    (fun projectKey allDatasets =>
       datasets <- ownValue catalog projectKey ;;
       forEach (Object_keys datasets)
         (fun datasetName allDatasets =>
            dataset <- ownValue datasets datasetName ;;
            Normal
              (allDatasets ++
               [{| Dataset.name := datasetName;
                   Dataset.project := projectKey;
                   Dataset.description := DatasetRaw.description dataset;
                   Dataset.tableCount := List.length (DatasetRaw.tables dataset);
                   Dataset.lastUpdated :=
                     Math_max (map (fun table => getTime (Table.created_at table))
                                   (DatasetRaw.tables dataset)) |}])%list)
         allDatasets)
    [].

(** The [for ... of] loop of [getDatasetByName], with its [return] and the
    [throw] that follows the loop.  [datasetName] is the caller's string,
    so [catalog[projectKey][datasetName]] goes through [Get]. *)
Fixpoint findDataset (catalog : CatalogData) (datasetName : string)
    (projectKeys : list string) : completion DatasetFull.t :=
  match projectKeys with
  | [] =>
      Throw (Error ("Dataset " ++ JS.DQ ++ datasetName ++ JS.DQ ++
                    " not found in any project"))
  | projectKey :: rest =>
      datasets <- ownValue catalog projectKey ;;
      let dataset := Get datasets datasetName in
      if truthy dataset then
        Normal {| DatasetFull.name := datasetName;
                  DatasetFull.project := projectKey;
                  DatasetFull.description := property_description dataset;
                  DatasetFull.tables := property_tables dataset |}
      else findDataset catalog datasetName rest
  end.

Definition getDatasetByName (datasetName : string) : completion DatasetFull.t :=
  catalog <- loadCatalogData ;;
  projectKeys <- getProjectKeys ;;
  findDataset catalog datasetName projectKeys.

Definition getDatasetNames : completion (list string) :=
  catalog <- loadCatalogData ;;
  projectKeys <- getProjectKeys ;;
  allNames <-
    forEach projectKeys
      (fun projectKey allNames =>
         datasets <- ownValue catalog projectKey ;;
         forEach (Object_keys datasets)
           (fun datasetName allNames => Normal (Set_add allNames datasetName))
           allNames)
      [] ;;
  Normal allNames.

End Catalog.

(** The catalog module as it was while the site had one project: every
    lookup goes through the fixed key ['rj-iplanrio'], which is no
    property of [Object.prototype], so [catalog['rj-iplanrio']] is the own
    value or [undefined], and [Object.keys(undefined)] throws. *)
Module SingleProject.

Module Dataset.
Record t : Type :=
  { name : string; description : string; tableCount : nat; lastUpdated : number }.
End Dataset.

(** As [DatasetFull] below the multi-project module, without the project. *)
Module DatasetFull.
Record t : Type :=
  { name : string; description : option string; tables : option (list Table.t) }.
End DatasetFull.

Section Catalog.

Variable loadCatalogData : completion CatalogData.
Variable getTime : string -> number.

Definition getDatasets : completion (list Dataset.t) :=
  catalog <- loadCatalogData ;;
  match own catalog "rj-iplanrio" with
  | None => Throw TypeError
  | Some datasets =>
      mapM (fun datasetName =>
              dataset <- ownValue datasets datasetName ;;
              Normal {| Dataset.name := datasetName;
                        Dataset.description := DatasetRaw.description dataset;
                        Dataset.tableCount := List.length (DatasetRaw.tables dataset);
                        Dataset.lastUpdated :=
                          Math_max (map (fun table => getTime (Table.created_at table))
                                        (DatasetRaw.tables dataset)) |})
           (Object_keys datasets)
  end.

(** The object literal reads [.description], then [.tables], off
    [catalog['rj-iplanrio'][datasetName]]: reading a property of
    [undefined] throws, reading one of a built-in gives [undefined]. *)
Definition getDatasetByName (datasetName : string) : completion DatasetFull.t :=
  catalog <- loadCatalogData ;;
  match own catalog "rj-iplanrio" with
  | None => Throw TypeError
  | Some datasets =>
      match Get datasets datasetName with
      | Undefined => Throw TypeError
      | dataset =>
          Normal {| DatasetFull.name := datasetName;
                    DatasetFull.description := property_description dataset;
                    DatasetFull.tables := property_tables dataset |}
      end
  end.

Definition getDatasetNames : completion (list string) :=
  catalog <- loadCatalogData ;;
  match own catalog "rj-iplanrio" with
  | None => Throw TypeError
  | Some datasets => Normal (Object_keys datasets)
  end.

End Catalog.

End SingleProject.

(** ** The rest of the catalog module, and its users *)

Definition getTotalTableCount (datasets : list Dataset.t) : nat :=
  fold_left (fun sum dataset => sum + Dataset.tableCount dataset) datasets 0.

(** [site/src/utils/schema.js]: the paths of the dataset pages. *)
Module StaticPathParams.
Record t : Type := { dataset : string }.
End StaticPathParams.

Module StaticPathProps.
Record t : Type := { dataset : DatasetFull.t }.
End StaticPathProps.

Module StaticPath.
Record t : Type := { params : StaticPathParams.t; props : StaticPathProps.t }.
End StaticPath.

Definition getTotalColumns (tables : list Table.t) : nat :=
  fold_left (fun sum table => sum + List.length (Object_keys (Table.schema table)))
            tables 0.

(** [site/src/utils/rendering.js]. *)
Module TableRenderData.
Record t : Type :=
  { name : string; formattedDate : string; columnCount : nat;
    schemaEntries : list FormattedColumn.t }.
End TableRenderData.

(** [site/src/scripts/stats.js]; no function there sets the optional
    [className]. *)
Module StatItem.
Record t : Type := { value : nat; label : string }.
End StatItem.

Definition getDatasetPageStats (tables : list Table.t) : list StatItem.t :=
  [{| StatItem.value := List.length tables;
      StatItem.label :=
        "Tabela" ++ (if List.length tables =? 1 then EmptyString else "s") |};
   {| StatItem.value := getTotalColumns tables;
      StatItem.label := "Colunas Totais" |}].

Section CatalogUsers.

Variable loadCatalogData : completion CatalogData.
Variable getTime : string -> number.

(** [new Date(created_at).toLocaleString('pt-BR')]. *)
Variable toLocaleString : string -> string.

(** The function is [async] and awaits nothing: its promise is fulfilled
    with the array ([Normal]) or rejected with what its body throws
    ([Throw]). *)
Definition getStaticPaths : completion (list StaticPath.t) :=
  datasets <- getDatasetNames loadCatalogData ;;
  mapM (fun datasetName =>
          dataset <- getDatasetByName loadCatalogData datasetName ;;
          Normal {| StaticPath.params := {| StaticPathParams.dataset := datasetName |};
                    StaticPath.props := {| StaticPathProps.dataset := dataset |} |})
       datasets.

Definition prepareTableForRender (table : Table.t) : TableRenderData.t :=
  let schemaEntries := formatSchema (Table.schema table) in
  {| TableRenderData.name := Table.name table;
     TableRenderData.formattedDate := toLocaleString (Table.created_at table);
     TableRenderData.columnCount := List.length schemaEntries;
     TableRenderData.schemaEntries := schemaEntries |}.

Definition prepareDatasetTablesForRender (tables : list Table.t)
  : list TableRenderData.t :=
  map (fun table => prepareTableForRender table) tables.

Definition getHomePageStats : completion (list StatItem.t) :=
  datasets <- getDatasets loadCatalogData getTime ;;
  Normal [{| StatItem.value := List.length datasets;
             StatItem.label := "Conjuntos de Dados" |};
          {| StatItem.value := getTotalTableCount datasets;
             StatItem.label := "Tabelas" |}].

Definition getDatasetsPageStats : completion (list StatItem.t) :=
  datasets <- getDatasets loadCatalogData getTime ;;
  Normal [{| StatItem.value := List.length datasets;
             StatItem.label := "Datasets" |};
          {| StatItem.value := getTotalTableCount datasets;
             StatItem.label := "Total de Tabelas" |}].

End CatalogUsers.

(** ** Escaping for the plain-text preview *)

(** [s.replace(/c/g, replacement)] for a one-character pattern and a
    replacement without [$]: every occurrence is replaced. *)
Fixpoint replaceAllChar (c : ascii) (replacement s : string) : string :=
  match s with
  | EmptyString => EmptyString
  | String x s' =>
      if Ascii.eqb x c then replacement ++ replaceAllChar c replacement s'
      else String x (replaceAllChar c replacement s')
  end.

Definition escapeHTMLCharacters (code : string) : string :=
  replaceAllChar ">" "&gt;"
    (replaceAllChar "<" "&lt;" (replaceAllChar "&" "&amp;" code)).

(** [CONFIG.styling.fallbackStyle]. *)
Definition fallbackStyle : string :=
  "background-color: transparent; color: #e5e7eb; padding: 1rem; margin: 0; font-family: 'Courier New', monospace;".

Definition createPlainTextHTML (code : string) : string :=
  let escapedCode := escapeHTMLCharacters code in
  "<pre style=" ++ JS.DQ ++ fallbackStyle ++ JS.DQ ++ "><code>" ++ escapedCode ++
  "</code></pre>".

(** ** Attribute helpers ([site/src/scripts/helpers.js]) *)

(** [o[key] = v] on a plain object: an existing key keeps its place. *)
Fixpoint setProperty {V} (o : JSObject V) (key : string) (v : V) : JSObject V :=
  match o with
  | [] => [(key, v)]
  | (k, w) :: rest =>
      if String.eqb k key then (k, v) :: rest
      else (k, w) :: setProperty rest key v
  end.

(** [Object.fromEntries(entries)], for entries in the order of an object
    (keys that are array indices, if any, already first). *)
Definition Object_fromEntries {V} (entries : list (string * V)) : JSObject V :=
  fold_left (fun o entry => setProperty o (fst entry) (snd entry)) entries [].

(** [astroProps] has the default [[]]: [None] is an omitted argument. *)
Definition getDataAttributes {V} (attributes : JSObject V)
    (astroProps : option (list string)) : JSObject V :=
  let astroProps := match astroProps with Some props => props | None => [] end in
  Object_fromEntries
    (filter (fun entry => negb (JS.array_includes astroProps (fst entry)))
            (Object_entries attributes)).

Definition getButtonDataAttributes {V} (attributes : JSObject V) : JSObject V :=
  let astroProps :=
    ["variant"; "size"; "href"; "icon"; "iconPosition";
     "className"; "type"; "disabled"; "target"; "rel"] in
  getDataAttributes attributes (Some astroProps).

(** ** The Colab snippet (the template module beside [schema.js]) *)

(** [s.slice(n)]. *)
Fixpoint drop (n : nat) (s : string) : string :=
  match n, s with
  | O, _ => s
  | S n', String _ s' => drop n' s'
  | S _, EmptyString => EmptyString
  end.

(** The text a match is replaced with when the second argument of
    [replace] is a string: [$$] is a dollar, [$&] the matched text, [$`]
    the text before the match, [$'] the text after it.  The patterns of
    this code have no capture group, so [$1] and the like stay as they
    are, as does any other [$]. *)
Fixpoint expandReplacement (matched before after replacement : string) : string :=
  match replacement with
  | EmptyString => EmptyString
  | String c rest =>
      if Ascii.eqb c "$" then
        match rest with
        | String d rest' =>
            if Ascii.eqb d "$" then
              String "$" (expandReplacement matched before after rest')
            else if Ascii.eqb d "&" then
              matched ++ expandReplacement matched before after rest'
            else if Ascii.eqb d "`" then
              before ++ expandReplacement matched before after rest'
            else if Ascii.eqb d "'" then
              after ++ expandReplacement matched before after rest'
            else String c (expandReplacement matched before after rest)
        | EmptyString => String c EmptyString
        end
      else String c (expandReplacement matched before after rest)
  end.

(** [s.replace(/pattern/g, replacement)] for a pattern that is a literal,
    non-empty text: the matches are found left to right in [s] and do not
    overlap; what replaces a match is not searched again.  [before] is the
    part of the string already passed, [skip] what is left of a match
    being passed. *)
Fixpoint replaceAllFrom (pattern replacement : string) (skip : nat)
    (before s : string) : string :=
  match s with
  | EmptyString => EmptyString
  | String c s' =>
      match skip with
      | S skip' =>
          replaceAllFrom pattern replacement skip' (before ++ String c EmptyString) s'
      | O =>
          if JS.startsWith s pattern then
            expandReplacement pattern before (drop (String.length pattern) s)
                              replacement ++
            replaceAllFrom pattern replacement (String.length pattern - 1)
                           (before ++ String c EmptyString) s'
          else
            String c (replaceAllFrom pattern replacement 0
                                     (before ++ String c EmptyString) s')
      end
  end.

Definition replaceAll (s pattern replacement : string) : string :=
  replaceAllFrom pattern replacement 0 EmptyString s.

(** The keys of [PLACEHOLDERS], and the text each pattern matches. *)
Inductive PlaceholderKey : Type := project | table.

Definition PLACEHOLDERS (key : PlaceholderKey) : string :=
  match key with
  | project => "{PROJECT_ID}"
  | table => "{TABLE_ID}"
  end.

Module DEFAULT_SNIPPET_VALUES.
Definition projectId : string := "SEU_PROJETO_AQUI".
Definition tableId : string := "seu-projeto.seu_dataset.sua_tabela".
End DEFAULT_SNIPPET_VALUES.

Definition SNIPPET_TEMPLATE : string :=
  JS.join JS.LF
    [
     "from google.cloud import bigquery";
     "from google.api_core.exceptions import GoogleAPIError";
     "from google.auth.exceptions import DefaultCredentialsError";
     "from IPython.display import display";
     "import google.colab.auth";
     "import pandas as pd";
     EmptyString;
     "# -----------------------------------------------------";
     "# Passo 1) Autentique uma vez por sessão";
     "# -----------------------------------------------------";
     "google.colab.auth.authenticate_user()";
     EmptyString;
     "# -----------------------------------------------------";
     "# Passo 2) Configure o projeto e a tabela alvo";
     "# -----------------------------------------------------";
     "PROJECT_ID = " ++ JS.DQ ++ "{PROJECT_ID}" ++ JS.DQ;
     "TABLE_ID = " ++ JS.DQ ++ "{TABLE_ID}" ++ JS.DQ;
     EmptyString;
     "client = bigquery.Client(project=PROJECT_ID)";
     EmptyString;
     "def query_table(limit: int = 100,";
     "                use_cache: bool = True,";
     "                timeout: int = 60,";
     "                dry_run: bool = False):";
     "    " ++ JS.DQ ++ JS.DQ ++ JS.DQ;
     "    Executa uma consulta simples no BigQuery.";
     "    - limit: número máximo de linhas retornadas";
     "    - use_cache: controla o uso do cache do BigQuery";
     "    - timeout: tempo limite em segundos para aguardar a resposta";
     "    - dry_run: quando True, apenas estima o custo (bytes processados)";
     "    " ++ JS.DQ ++ JS.DQ ++ JS.DQ;
     EmptyString;
     "    query = f" ++ JS.DQ ++ JS.DQ ++ JS.DQ;
     "    SELECT";
     "      *";
     "    FROM `{TABLE_ID}`";
     "    LIMIT @limit";
     "    " ++ JS.DQ ++ JS.DQ ++ JS.DQ;
     EmptyString;
     "    job_config = bigquery.QueryJobConfig(";
     "        query_parameters=[";
     "            bigquery.ScalarQueryParameter(" ++ JS.DQ ++ "limit" ++ JS.DQ ++ ", " ++ JS.DQ ++ "INT64" ++ JS.DQ ++ ", limit),";
     "        ],";
     "        use_query_cache=use_cache,";
     "        dry_run=dry_run,";
     "    )";
     EmptyString;
     "    try:";
     "        job = client.query(query, job_config=job_config)";
     EmptyString;
     "        if dry_run:";
     "            bytes_gb = (job.total_bytes_processed or 0) / 1e9";
     "            print(f" ++ JS.DQ ++ "[DRY RUN] bytes estimados: {bytes_gb:.3f} GB" ++ JS.DQ ++ ")";
     "            return pd.DataFrame()";
     EmptyString;
     "        df = job.result(timeout=timeout).to_dataframe()";
     "        preview = df.head()";
     EmptyString;
     "        bytes_gb = (job.total_bytes_processed or 0) / 1e9";
     "        print(f" ++ JS.DQ ++ "bytes processados: {bytes_gb:.3f} GB" ++ JS.DQ ++ ")";
     "        if job.slot_millis is not None:";
     "            print(f" ++ JS.DQ ++ "slot_millis: {job.slot_millis}" ++ JS.DQ ++ ")";
     EmptyString;
     "        display(preview)";
     "        return df";
     EmptyString;
     "    except (GoogleAPIError, DefaultCredentialsError) as exc:";
     "        raise RuntimeError(f" ++ JS.DQ ++ "Erro ao executar query: {exc}" ++ JS.DQ ++ ") from exc";
     EmptyString;
     EmptyString;
     "if __name__ == " ++ JS.DQ ++ "__main__" ++ JS.DQ ++ ":";
     "    df = query_table(limit=100)";
     "    if not df.empty:";
     "        df.head()";
     EmptyString].

(** [values] is a [Record<keyof typeof PLACEHOLDERS, string>], listed in
    the order of its entries. *)
Definition replaceTemplateValues (template : string)
    (values : list (PlaceholderKey * string)) : string :=
  fold_left (fun snippet entry => replaceAll snippet (PLACEHOLDERS (fst entry)) (snd entry))
            values template.

(** The two fields of the argument are optional: [None] is [undefined]. *)
Definition generateColabSnippet (tableId projectId : option string) : string :=
  let values :=
    [(project, or_else projectId DEFAULT_SNIPPET_VALUES.projectId);
     (table, or_else tableId DEFAULT_SNIPPET_VALUES.tableId)] in
  replaceTemplateValues SNIPPET_TEMPLATE values.

(** ** The order of the properties of an object *)

(** The number that the decimal digits of [s] denote, after the digits
    that gave [value]; [None] when [s] has another character. *)
Fixpoint decimal (s : string) (value : N) : option N :=
  match s with
  | EmptyString => Some value
  | String c rest =>
      if JS.isDigit c
      then decimal rest (10 * value + N.of_nat (nat_of_ascii c - 48))%N
      else None
  end.

(** A property name that is an array index: the decimal form, without a
    leading zero, of an integer from 0 to 2^32 - 2. *)
Definition arrayIndex (key : string) : option N :=
  match key with
  | EmptyString => None
  | String c rest =>
      if Ascii.eqb c "0" then
        match rest with
        | EmptyString => Some 0%N
        | String _ _ => None
        end
      else
        match decimal key 0 with
        | Some n => if (n <? 4294967295)%N then Some n else None
        | None => None
        end
  end.

Definition isIndex (key : string) : bool :=
  match arrayIndex key with
  | Some _ => true
  | None => false
  end.

Definition indexOf (key : string) : N :=
  match arrayIndex key with
  | Some n => n
  | None => 0%N
  end.

(** The properties named by an array index, by ascending index. *)
Fixpoint insertIndexed {V} (entry : string * V) (sorted : list (string * V))
  : list (string * V) :=
  match sorted with
  | [] => [entry]
  | next :: rest =>
      if (indexOf (fst entry) <=? indexOf (fst next))%N then entry :: sorted
      else next :: insertIndexed entry rest
  end.

Definition sortIndexed {V} (entries : list (string * V)) : list (string * V) :=
  fold_right insertIndexed [] entries.

(** The order in which an ordinary object lists its own properties
    ([Object.keys], [Object.entries]): the array indices in ascending
    numeric order, then the other names in the order of their creation. *)
Definition enumerationOrder {V} (created : list (string * V)) : JSObject V :=
  (sortIndexed (filter (fun entry => isIndex (fst entry)) created) ++
   filter (fun entry => negb (isIndex (fst entry))) created)%list.

(** The object that [JSON.parse] (or an object literal) builds from the
    members of a document, given in the order of the text: each member
    creates its property, or sets it again when the name was seen. *)
Definition objectOfMembers {V} (members : list (string * V)) : JSObject V :=
  enumerationOrder (Object_fromEntries members).

(** * Properties *)

(** ** Vocabulary of the statements *)

(** [s] contains [needle]. *)
Definition contains (s needle : string) : Prop :=
  exists before after, s = before ++ needle ++ after.

(** [s] ends with [suffix]. *)
Definition ends_with (s suffix : string) : Prop :=
  exists before, s = before ++ suffix.

(** A dotted column name: one with a ['.'] in it. *)
Definition dotted (columnName : string) : Prop := contains columnName ".".

(** [kept] is [all] with some elements removed, the others in place. *)
Inductive subsequence {A : Type} : list A -> list A -> Prop :=
| subsequence_nil : subsequence [] []
| subsequence_keep x kept all :
    subsequence kept all -> subsequence (x :: kept) (x :: all)
| subsequence_drop x kept all :
    subsequence kept all -> subsequence kept (x :: all).

(** [column] is the formatted form of the schema entry [entry]: same name,
    same type, and the description of the entry unless that is missing or
    empty, in which case the placeholder. *)
Definition formatted (entry : string * ColumnInfo.t) (column : FormattedColumn.t) : Prop :=
  FormattedColumn.name column = fst entry /\
  FormattedColumn.type column = ColumnInfo.type (snd entry) /\
  (ColumnInfo.description (snd entry) = None \/
   ColumnInfo.description (snd entry) = Some EmptyString ->
   FormattedColumn.description column = "Sem descrição") /\
  (forall text,
      ColumnInfo.description (snd entry) = Some text -> text <> EmptyString ->
      FormattedColumn.description column = text).

(** The view [getDatasets] builds of the dataset [raw], found under
    [projectKey] with the name [datasetName]. *)
Definition viewOf (getTime : string -> number) (projectKey datasetName : string)
    (raw : DatasetRaw.t) : Dataset.t :=
  {| Dataset.name := datasetName;
     Dataset.project := projectKey;
     Dataset.description := DatasetRaw.description raw;
     Dataset.tableCount := List.length (DatasetRaw.tables raw);
     Dataset.lastUpdated :=
       Math_max (map (fun table => getTime (Table.created_at table))
                     (DatasetRaw.tables raw)) |}.

(** The message of the error [getDatasetByName] throws. *)
Definition notFoundMessage (datasetName : string) : string :=
  "Dataset " ++ JS.DQ ++ datasetName ++ JS.DQ ++ " not found in any project".

(** An ASCII character other than white space. *)
Definition plainChar (c : ascii) : bool :=
  let n := nat_of_ascii c in
  (n <? 128) && negb (((9 <=? n) && (n <=? 13)) || (n =? 32)).

(** A name made of such characters. *)
Fixpoint plain (s : string) : bool :=
  match s with
  | EmptyString => true
  | String c s' => plainChar c && plain s'
  end.

(** One of the letters of LIMIT, in either case. *)
Definition limitLetter (c : ascii) : bool :=
  JS.letter "L" "l" c || JS.letter "I" "i" c || JS.letter "M" "m" c ||
  JS.letter "T" "t" c.

(** No match of the pattern starts inside [body] when [tail] follows it. *)
Definition quiet (body tail : string) : Prop :=
  forall pre c post,
    body = pre ++ String c post -> JS.matchLimit (String c post ++ tail) = None.

(** No white space followed by a digit at the head of [tail]. *)
Definition noLimitValue (tail : string) : Prop :=
  forall rest1 d rest2,
    JS.whiteSpace tail = Some rest1 ->
    JS.whiteSpaces (String.length rest1) rest1 = String d rest2 ->
    JS.isDigit d = false.

(** A catalog as [JSON.parse] can build it: distinct project keys, and
    distinct dataset names under each. *)
Definition well_formed (catalog : CatalogData) : Prop :=
  distinct_keys catalog /\ Forall (fun project => distinct_keys (snd project)) catalog.

(** The views of all the datasets, project by project in catalog order. *)
Definition allViews (getTime : string -> number) (catalog : CatalogData)
  : list Dataset.t :=
  flat_map (fun project =>
              map (fun dataset => viewOf getTime (fst project) (fst dataset) (snd dataset))
                  (snd project))
           catalog.

(** The number of datasets and the number of tables in a catalog. *)
Definition datasetTotal (catalog : CatalogData) : nat :=
  list_sum (map (fun project => List.length (snd project)) catalog).

Definition tableTotal (catalog : CatalogData) : nat :=
  list_sum
    (map (fun project =>
            list_sum (map (fun dataset => List.length (DatasetRaw.tables (snd dataset)))
                          (snd project)))
         catalog).

(** The line feed as a character. *)
Definition LFchar : ascii := ascii_of_nat 10.

(** The text of [s] before, and after, the first occurrence of
    [pattern]. *)
Fixpoint beforeFirst (pattern s : string) : string :=
  match s with
  | EmptyString => EmptyString
  | String c s' =>
      if JS.startsWith s pattern then EmptyString
      else String c (beforeFirst pattern s')
  end.

Fixpoint afterFirst (pattern s : string) : string :=
  match s with
  | EmptyString => EmptyString
  | String c s' =>
      if JS.startsWith s pattern then drop (String.length pattern) s
      else afterFirst pattern s'
  end.

(** The four pieces of the template around its three placeholders. *)
Definition snippetHead : string := beforeFirst "{PROJECT_ID}" SNIPPET_TEMPLATE.

Definition snippetMiddle1 : string :=
  beforeFirst "{TABLE_ID}" (afterFirst "{PROJECT_ID}" SNIPPET_TEMPLATE).

Definition snippetMiddle2 : string :=
  beforeFirst "{TABLE_ID}"
    (afterFirst "{TABLE_ID}" (afterFirst "{PROJECT_ID}" SNIPPET_TEMPLATE)).

Definition snippetTail : string :=
  afterFirst "{TABLE_ID}"
    (afterFirst "{TABLE_ID}" (afterFirst "{PROJECT_ID}" SNIPPET_TEMPLATE)).

(** Replacing every occurrence of [pattern] by [value] as it is. *)
Fixpoint substituteFrom (pattern value : string) (skip : nat) (s : string) : string :=
  match s with
  | EmptyString => EmptyString
  | String c s' =>
      match skip with
      | S skip' => substituteFrom pattern value skip' s'
      | O =>
          if JS.startsWith s pattern then
            value ++ substituteFrom pattern value (String.length pattern - 1) s'
          else String c (substituteFrom pattern value 0 s')
      end
  end.

(** ** Strings *)

Lemma append_assoc (a b c : string) : (a ++ b) ++ c = a ++ b ++ c.
Proof. induction a as [|x a IH]; simpl; [reflexivity | now rewrite IH]. Qed.

Lemma append_empty_r (a : string) : a ++ EmptyString = a.
Proof. induction a as [|x a IH]; simpl; [reflexivity | now rewrite IH]. Qed.

(** Brings both sides of an equation between concatenations to their
    right-nested form. *)
Ltac flatten_append :=
  unfold JS.LF; repeat (progress cbn [append] || rewrite append_assoc).

Lemma startsWith_spec (s p : string) :
  JS.startsWith s p = true <-> exists rest, s = p ++ rest.
Proof.
  revert s; induction p as [|a p IH]; intros s; simpl.
  - split; [intros _; now exists s | reflexivity].
  - destruct s as [|b s].
    + split; [discriminate | intros [rest H]; discriminate].
    + rewrite andb_true_iff, Ascii.eqb_eq, IH. split.
      * intros [-> [rest ->]]. now exists rest.
      * intros [rest H]. injection H as -> ->. split; [reflexivity | now exists rest].
Qed.

Lemma includes_spec (s needle : string) :
  JS.includes s needle = true <-> contains s needle.
Proof.
  unfold contains. induction s as [|c s IH].
  - simpl. rewrite orb_false_r, startsWith_spec. split.
    + intros [rest H]. now exists EmptyString, rest.
    + intros [[|b before] [after H]]; [now exists after | discriminate].
  - cbn [JS.includes]. rewrite orb_true_iff, startsWith_spec, IH. split.
    + intros [[rest H] | [before [after H]]].
      * now exists EmptyString, rest.
      * exists (String c before), after. simpl. now rewrite H.
    + intros [[|b before] [after H]].
      * left. now exists after.
      * right. injection H as -> H. now exists before, after.
Qed.

Lemma includes_dotted (columnName : string) :
  JS.includes columnName "." = true <-> dotted columnName.
Proof. apply includes_spec. Qed.

Lemma not_dotted (columnName : string) :
  JS.includes columnName "." = false <-> ~ dotted columnName.
Proof.
  rewrite <- includes_dotted. destruct (JS.includes columnName "."); split;
    congruence.
Qed.

Lemma dotted_cons (c : ascii) (s : string) :
  dotted (String c s) <-> c = "."%char \/ dotted s.
Proof.
  rewrite <- !includes_dotted. cbn [JS.includes JS.startsWith].
  rewrite orb_true_iff, andb_true_r, Ascii.eqb_eq. intuition congruence.
Qed.

(** The first piece of a split is what precedes the first ['.']. *)
Lemma split_first (parent rest : string) :
  ~ dotted parent ->
  JS.first (JS.split "." (parent ++ "." ++ rest)) = parent.
Proof.
  induction parent as [|c parent IH]; intros Hnot.
  - reflexivity.
  - rewrite dotted_cons in Hnot. simpl.
    destruct (Ascii.eqb c ".") eqn:E.
    + apply Ascii.eqb_eq in E. tauto.
    + specialize (IH (fun H => Hnot (or_intror H))). simpl in IH.
      unfold JS.first in *.
      destruct (JS.split "." (parent ++ String "." rest)); simpl in *; congruence.
Qed.

(** A dotted name splits at its first ['.']. *)
Lemma dotted_first_dot (columnName : string) :
  dotted columnName ->
  exists parent rest, columnName = parent ++ "." ++ rest /\ ~ dotted parent.
Proof.
  induction columnName as [|c s IH]; intros H.
  - apply includes_dotted in H. discriminate.
  - destruct (Ascii.eqb c ".") eqn:E.
    + apply Ascii.eqb_eq in E. subst c. exists EmptyString, s. split; [reflexivity|].
      apply not_dotted. reflexivity.
    + apply dotted_cons in H. destruct H as [-> | H]; [discriminate|].
      destruct (IH H) as (parent & rest & -> & Hp).
      exists (String c parent), rest. split; [reflexivity|].
      rewrite dotted_cons. intros [-> | H']; [discriminate | tauto].
Qed.

Lemma array_includes_In (items : list string) (x : string) :
  JS.array_includes items x = true <-> In x items.
Proof.
  unfold JS.array_includes. rewrite existsb_exists. split.
  - intros (y & Hy & E). apply String.eqb_eq in E. now subst.
  - intros H. exists x. split; [assumption | apply String.eqb_refl].
Qed.

Lemma array_includes_not_In (items : list string) (x : string) :
  JS.array_includes items x = false <-> ~ In x items.
Proof.
  rewrite <- array_includes_In. destruct (JS.array_includes items x); split;
    congruence.
Qed.

Lemma first_dot_unique (parent parent' rest rest' : string) :
  parent ++ "." ++ rest = parent' ++ "." ++ rest' ->
  ~ dotted parent -> ~ dotted parent' -> parent = parent'.
Proof.
  intros E H H'.
  rewrite <- (split_first parent rest H), <- (split_first parent' rest' H').
  now rewrite E.
Qed.

Lemma contains_refl (s : string) : contains s s.
Proof. exists EmptyString, EmptyString. simpl. now rewrite append_empty_r. Qed.

Lemma contains_append (a s b needle : string) :
  contains s needle -> contains (a ++ s ++ b) needle.
Proof.
  intros (before & after & ->). exists (a ++ before), (after ++ b).
  now rewrite !append_assoc.
Qed.

Lemma contains_after (a s needle : string) :
  contains s needle -> contains (a ++ s) needle.
Proof.
  intros H. rewrite <- (append_empty_r s). now apply contains_append.
Qed.

Lemma contains_before (s b needle : string) :
  contains s needle -> contains (s ++ b) needle.
Proof. apply (contains_append EmptyString). Qed.

Lemma contains_join (sep : string) (items : list string) (x : string) :
  In x items -> contains (JS.join sep items) x.
Proof.
  induction items as [|y items IH]; intros H; [destruct H|].
  destruct items as [|z items].
  - destruct H as [-> | []]. apply contains_refl.
  - change (JS.join sep (y :: z :: items))
      with (y ++ sep ++ JS.join sep (z :: items)).
    destruct H as [-> | H].
    + apply (contains_append EmptyString x _ x), contains_refl.
    + rewrite <- append_assoc.
      rewrite <- (append_empty_r (JS.join sep (z :: items))).
      apply contains_append, IH, H.
Qed.

(** ** Lists *)

Lemma filter_subsequence {A} (f : A -> bool) (l : list A) :
  subsequence (filter f l) l.
Proof.
  induction l as [|x l IH]; simpl; [constructor|].
  destruct (f x); now constructor.
Qed.

Lemma filter_all {A} (f : A -> bool) (l : list A) :
  (forall x, In x l -> f x = true) -> filter f l = l.
Proof.
  induction l as [|x l IH]; intros H; simpl; [reflexivity|].
  rewrite (H x (or_introl eq_refl)), IH; [reflexivity|].
  intros y Hy. apply H. now right.
Qed.

Lemma count_occ_filter (f : string -> bool) (l : list string) (x : string) :
  count_occ string_dec (filter f l) x =
  if f x then count_occ string_dec l x else 0.
Proof.
  induction l as [|y l IH]; simpl; [now destruct (f x)|].
  destruct (f y) eqn:Ey; simpl; destruct (string_dec y x) as [->|N];
    rewrite IH; try rewrite Ey; try reflexivity.
Qed.

(** ** The nested-column filter *)

(** A column survives when it is selected and no name that precedes its
    first ['.'] is selected. *)
Lemma kept_iff (columnNames : list string) (c : string) :
  In c (Legacy.filterNestedColumns columnNames) <->
  In c columnNames /\
  forall parent rest,
    c = parent ++ "." ++ rest -> ~ dotted parent -> ~ In parent columnNames.
Proof.
  unfold Legacy.filterNestedColumns. rewrite filter_In.
  split; intros [Hin H]; (split; [assumption|]).
  - intros parent rest -> Hp.
    destruct (JS.includes (parent ++ "." ++ rest) ".") eqn:E.
    + rewrite (split_first parent rest Hp) in H.
      now apply negb_true_iff, array_includes_not_In in H.
    + apply not_dotted in E. exfalso. apply E. now exists parent, rest.
  - destruct (JS.includes c ".") eqn:E; [|reflexivity].
    apply includes_dotted, dotted_first_dot in E.
    destruct E as (parent & rest & -> & Hp).
    rewrite (split_first parent rest Hp).
    apply negb_true_iff, array_includes_not_In. now apply (H parent rest).
Qed.

Lemma kept_undotted (columnNames : list string) (c : string) :
  In c columnNames -> ~ dotted c -> In c (Legacy.filterNestedColumns columnNames).
Proof.
  intros Hin Hc. apply kept_iff. split; [assumption|].
  intros parent rest -> _. exfalso. apply Hc. now exists parent, rest.
Qed.

Lemma kept_child (columnNames : list string) (parent rest : string) :
  ~ dotted parent -> In (parent ++ "." ++ rest) columnNames ->
  ~ In parent columnNames ->
  In (parent ++ "." ++ rest) (Legacy.filterNestedColumns columnNames).
Proof.
  intros Hp Hin Hnot. apply kept_iff. split; [assumption|].
  intros parent' rest' E Hp'.
  now rewrite <- (first_dot_unique parent parent' rest rest' E Hp Hp').
Qed.

Lemma dropped_child (columnNames : list string) (parent rest : string) :
  ~ dotted parent -> In parent columnNames ->
  ~ In (parent ++ "." ++ rest) (Legacy.filterNestedColumns columnNames).
Proof.
  intros Hp Hin Hkept. apply kept_iff in Hkept. destruct Hkept as [_ H].
  exact (H parent rest eq_refl Hp Hin).
Qed.

Lemma kept_nonempty (c : string) (columnNames : list string) :
  Legacy.filterNestedColumns (c :: columnNames) <> [].
Proof.
  assert (exists x, In x (Legacy.filterNestedColumns (c :: columnNames))) as [x Hx].
  { destruct (JS.includes c ".") eqn:E.
    - apply includes_dotted, dotted_first_dot in E.
      destruct E as (parent & rest & -> & Hp).
      destruct (in_dec string_dec parent ((parent ++ "." ++ rest) :: columnNames)) as [Hin|Hnot].
      + exists parent. now apply kept_undotted.
      + exists (parent ++ "." ++ rest). apply kept_child; simpl; auto.
    - exists c. apply kept_undotted; [now left | now apply not_dotted]. }
  intros E. rewrite E in Hx. destruct Hx.
Qed.

(** The filter written inside [generateQuery] is [filterNestedColumns], and
    on a selection that is not empty the two versions of [generateQuery]
    agree. *)
Lemma generateQuery_cons (projectKey datasetName tableName c : string)
    (columnNames : list string) :
  generateQuery projectKey datasetName tableName (Some (c :: columnNames)) =
  Legacy.generateQuery projectKey datasetName tableName (c :: columnNames).
Proof. reflexivity. Qed.

Lemma filterNestedColumns_idempotent (columnNames : list string) :
  Legacy.filterNestedColumns (Legacy.filterNestedColumns columnNames) =
  Legacy.filterNestedColumns columnNames.
Proof.
  unfold Legacy.filterNestedColumns at 1. apply filter_all. intros c Hc.
  destruct (JS.includes c ".") eqn:E; [|reflexivity].
  apply includes_dotted, dotted_first_dot in E.
  destruct E as (parent & rest & -> & Hp).
  rewrite (split_first parent rest Hp).
  apply negb_true_iff, array_includes_not_In. intros Hparent.
  apply kept_iff in Hc. destruct Hc as [_ H].
  apply kept_iff in Hparent. destruct Hparent as [Hin _].
  exact (H parent rest eq_refl Hp Hin).
Qed.

(** Joining with a separator that re-indents is indenting every item. *)
Lemma join_indented (x : string) (items : list string) :
  "  " ++ JS.join ("," ++ JS.LF ++ "  ") (x :: items) =
  JS.join ("," ++ JS.LF) (map (fun column => "  " ++ column) (x :: items)).
Proof.
  revert x; induction items as [|y items IH]; intros x; [reflexivity|].
  change (JS.join ("," ++ JS.LF ++ "  ") (x :: y :: items))
    with (x ++ ("," ++ JS.LF ++ "  ") ++ JS.join ("," ++ JS.LF ++ "  ") (y :: items)).
  change (JS.join ("," ++ JS.LF) (map (fun column => "  " ++ column) (x :: y :: items)))
    with (("  " ++ x) ++ ("," ++ JS.LF) ++
          JS.join ("," ++ JS.LF) (map (fun column => "  " ++ column) (y :: items))).
  rewrite <- IH, !append_assoc. reflexivity.
Qed.

(** C1.  The filter of [generateQuery] keeps every column without a ['.'],
    drops a dotted column exactly when the name before its first ['.'] is
    itself selected, keeps the survivors in their input order with all
    their occurrences, and the select list of the query is the survivors. *)
Theorem nested_filter_rule (columnNames : list string) :
  let kept := Legacy.filterNestedColumns columnNames in
  subsequence kept columnNames /\
  (forall c, In c columnNames -> ~ dotted c -> In c kept) /\
  (forall parent rest,
      ~ dotted parent -> In (parent ++ "." ++ rest) columnNames ->
      (~ In (parent ++ "." ++ rest) kept <-> In parent columnNames)) /\
  (forall c, In c kept ->
      count_occ string_dec kept c = count_occ string_dec columnNames c) /\
  (forall projectKey datasetName tableName,
      columnNames <> [] ->
      generateQuery projectKey datasetName tableName (Some columnNames) =
      "SELECT" ++ JS.LF ++ "  " ++ JS.join ("," ++ JS.LF ++ "  ") kept ++ JS.LF ++
      "FROM `" ++ projectKey ++ "." ++ datasetName ++ "." ++ tableName ++ "`" ++
      JS.LF ++ "LIMIT 100").
Proof.
  intros kept. subst kept. repeat split.
  - apply filter_subsequence.
  - intros c. apply kept_undotted.
  - intros Hdropped.
    destruct (in_dec string_dec parent columnNames) as [Hin|Hnot]; [assumption|].
    exfalso. apply Hdropped. now apply kept_child.
  - intros Hin. now apply dropped_child.
  - intros c Hc. unfold Legacy.filterNestedColumns in *.
    rewrite count_occ_filter. apply filter_In in Hc. destruct Hc as [_ Hc].
    cbv beta in Hc. now rewrite Hc.
  - intros projectKey datasetName tableName Hne.
    destruct columnNames as [|c rest]; [congruence | reflexivity].
Qed.

(** C6.  Filtering the survivors again changes nothing, neither as a list
    nor in the query generated from them. *)
Theorem nested_filter_idempotent (columnNames : list string) :
  Legacy.filterNestedColumns (Legacy.filterNestedColumns columnNames) =
  Legacy.filterNestedColumns columnNames /\
  forall projectKey datasetName tableName,
    generateQuery projectKey datasetName tableName
      (Some (Legacy.filterNestedColumns columnNames)) =
    generateQuery projectKey datasetName tableName (Some columnNames).
Proof.
  split; [apply filterNestedColumns_idempotent|].
  intros projectKey datasetName tableName.
  destruct columnNames as [|c rest]; [reflexivity|].
  destruct (Legacy.filterNestedColumns (c :: rest)) as [|k kept] eqn:E.
  - now apply kept_nonempty in E.
  - rewrite !generateQuery_cons. unfold Legacy.generateQuery.
    now rewrite <- E, filterNestedColumns_idempotent.
Qed.

(** C4.  The shape of the query: [SELECT *] for an empty or absent
    selection, otherwise the surviving columns one per line, each behind
    two spaces; then the FROM clause with the backtick-quoted reference and
    the fixed [LIMIT 100]. *)
Theorem generateQuery_shape (projectKey datasetName tableName : string) :
  let reference :=
    "`" ++ projectKey ++ "." ++ datasetName ++ "." ++ tableName ++ "`" in
  (forall columnNames,
      columnNames = None \/ columnNames = Some [] ->
      generateQuery projectKey datasetName tableName columnNames =
      "SELECT" ++ JS.LF ++ "  *" ++ JS.LF ++ "FROM " ++ reference ++ JS.LF ++ "LIMIT 100" /\
      contains (generateQuery projectKey datasetName tableName columnNames)
               ("SELECT" ++ JS.LF ++ "  *")) /\
  (forall c columnNames,
      generateQuery projectKey datasetName tableName (Some (c :: columnNames)) =
      "SELECT" ++ JS.LF ++
      JS.join ("," ++ JS.LF)
        (map (fun column => "  " ++ column)
             (Legacy.filterNestedColumns (c :: columnNames))) ++ JS.LF ++
      "FROM " ++ reference ++ JS.LF ++ "LIMIT 100" /\
      Legacy.filterNestedColumns (c :: columnNames) <> []) /\
  (forall columnNames,
      ends_with (generateQuery projectKey datasetName tableName columnNames)
                (reference ++ JS.LF ++ "LIMIT 100")) /\
  contains (generateQuery "proj" "ds" "tbl" (Some [])) ("SELECT" ++ JS.LF ++ "  *") /\
  ends_with (generateQuery "proj" "ds" "tbl" (Some []))
            ("`proj.ds.tbl`" ++ JS.LF ++ "LIMIT 100").
Proof.
  intros reference. subst reference.
  assert (Hcons : forall c columnNames,
             generateQuery projectKey datasetName tableName (Some (c :: columnNames)) =
             "SELECT" ++ JS.LF ++
             JS.join ("," ++ JS.LF)
               (map (fun column => "  " ++ column)
                    (Legacy.filterNestedColumns (c :: columnNames))) ++ JS.LF ++
             "FROM `" ++ projectKey ++ "." ++ datasetName ++ "." ++ tableName ++
             "`" ++ JS.LF ++ "LIMIT 100").
  { intros c columnNames. rewrite generateQuery_cons. unfold Legacy.generateQuery.
    destruct (Legacy.filterNestedColumns (c :: columnNames)) as [|k kept] eqn:E.
    - now apply kept_nonempty in E.
    - rewrite <- join_indented. flatten_append; reflexivity. }
  split; [|split; [|split; [|split]]].
  - intros columnNames H. split.
    + destruct H as [-> | ->]; unfold generateQuery; flatten_append; reflexivity.
    + exists EmptyString,
        (JS.LF ++ "FROM `" ++ projectKey ++ "." ++ datasetName ++ "." ++
         tableName ++ "`" ++ JS.LF ++ "LIMIT 100").
      destruct H as [-> | ->]; reflexivity.
  - intros c columnNames. split; [|apply kept_nonempty].
    rewrite Hcons. flatten_append; reflexivity.
  - intros [[|c columnNames]|].
    + exists ("SELECT" ++ JS.LF ++ "  *" ++ JS.LF ++ "FROM ").
      unfold generateQuery. flatten_append; reflexivity.
    + rewrite Hcons.
      exists ("SELECT" ++ JS.LF ++
              JS.join ("," ++ JS.LF)
                (map (fun column => "  " ++ column)
                     (Legacy.filterNestedColumns (c :: columnNames))) ++ JS.LF ++
              "FROM ").
      flatten_append; reflexivity.
    + exists ("SELECT" ++ JS.LF ++ "  *" ++ JS.LF ++ "FROM ").
      unfold generateQuery. flatten_append; reflexivity.
  - now exists EmptyString, (JS.LF ++ "FROM `proj.ds.tbl`" ++ JS.LF ++ "LIMIT 100").
  - now exists ("SELECT" ++ JS.LF ++ "  *" ++ JS.LF ++ "FROM ").
Qed.

(** A column is dropped only for the name before its first ['.']. *)
Lemma dropped_only_for_root (columnNames : list string) (c : string) :
  In c columnNames -> ~ In c (Legacy.filterNestedColumns columnNames) ->
  exists root rest, c = root ++ "." ++ rest /\ ~ dotted root /\ In root columnNames.
Proof.
  intros Hin Hdropped. destruct (JS.includes c ".") eqn:E.
  - apply includes_dotted, dotted_first_dot in E.
    destruct E as (root & rest & -> & Hroot). exists root, rest.
    repeat split; [assumption|].
    destruct (in_dec string_dec root columnNames) as [H|H]; [assumption|].
    exfalso. apply Hdropped. now apply kept_child.
  - exfalso. apply Hdropped, kept_undotted; [assumption | now apply not_dotted].
Qed.

(** C10, as stated, fails: with the undotted root selected too, the dotted
    parent and its child are both dropped. *)
Lemma dotted_ancestor_with_root_selected :
  dotted "address.city" /\
  In "address.city" ["address"; "address.city"; "address.city.zip"] /\
  In ("address.city" ++ "." ++ "zip") ["address"; "address.city"; "address.city.zip"] /\
  Legacy.filterNestedColumns ["address"; "address.city"; "address.city.zip"] = ["address"] /\
  ~ In "address.city"
       (Legacy.filterNestedColumns ["address"; "address.city"; "address.city.zip"]) /\
  ~ In ("address.city" ++ "." ++ "zip")
       (Legacy.filterNestedColumns ["address"; "address.city"; "address.city.zip"]) /\
  generateQuery "proj" "ds" "tbl" (Some ["address"; "address.city"; "address.city.zip"]) =
  "SELECT" ++ JS.LF ++ "  address" ++ JS.LF ++ "FROM `proj.ds.tbl`" ++ JS.LF ++ "LIMIT 100".
Proof.
  repeat split.
  - apply includes_dotted. reflexivity.
  - simpl. auto.
  - simpl. auto.
  - intros [H | []]. discriminate.
  - intros [H | []]. discriminate.
Qed.

(** C10, amended.  When the name before the first ['.'] is not selected, a
    dotted column and a deeper column it covers both survive and both
    appear in the query: a dotted ancestor is never consulted. *)
Theorem dotted_ancestor_not_consulted (columnNames : list string)
    (root mid rest : string) :
  ~ dotted root ->
  In (root ++ "." ++ mid) columnNames ->
  In ((root ++ "." ++ mid) ++ "." ++ rest) columnNames ->
  ~ In root columnNames ->
  In (root ++ "." ++ mid) (Legacy.filterNestedColumns columnNames) /\
  In ((root ++ "." ++ mid) ++ "." ++ rest) (Legacy.filterNestedColumns columnNames) /\
  (forall projectKey datasetName tableName,
      contains (generateQuery projectKey datasetName tableName (Some columnNames))
               (root ++ "." ++ mid) /\
      contains (generateQuery projectKey datasetName tableName (Some columnNames))
               ((root ++ "." ++ mid) ++ "." ++ rest)) /\
  (forall c,
      In c columnNames -> ~ In c (Legacy.filterNestedColumns columnNames) ->
      exists root' rest', c = root' ++ "." ++ rest' /\ ~ dotted root' /\
                          In root' columnNames).
Proof.
  intros Hroot Hparent Hchild Hnot.
  assert (Kparent : In (root ++ "." ++ mid) (Legacy.filterNestedColumns columnNames))
    by now apply kept_child.
  assert (Kchild : In ((root ++ "." ++ mid) ++ "." ++ rest)
                      (Legacy.filterNestedColumns columnNames)).
  { rewrite append_assoc in *. now apply kept_child. }
  repeat split; try assumption.
  - destruct columnNames as [|c cs]; [destruct Hparent|].
    rewrite generateQuery_cons. unfold Legacy.generateQuery.
    apply (contains_after "SELECT"), (contains_after JS.LF),
      (contains_after "  "), contains_before, contains_join, Kparent.
  - destruct columnNames as [|c cs]; [destruct Hparent|].
    rewrite generateQuery_cons. unfold Legacy.generateQuery.
    apply (contains_after "SELECT"), (contains_after JS.LF),
      (contains_after "  "), contains_before, contains_join, Kchild.
  - intros c. apply dropped_only_for_root.
Qed.

Lemma dotted_ancestor_not_consulted_example :
  In ("address" ++ "." ++ "city")
     (Legacy.filterNestedColumns ["address.city"; "address.city.zip"]) /\
  In (("address" ++ "." ++ "city") ++ "." ++ "zip")
     (Legacy.filterNestedColumns ["address.city"; "address.city.zip"]).
Proof.
  refine (let H := dotted_ancestor_not_consulted
                     ["address.city"; "address.city.zip"] "address" "city" "zip"
                     _ _ _ _ in conj (proj1 H) (proj1 (proj2 H))).
  - apply not_dotted. reflexivity.
  - simpl. auto.
  - simpl. auto.
  - simpl. intros [H | [H | []]]; discriminate.
Defined.

(** ** The Python snippet *)

Lemma whiteSpace_plain (c : ascii) (s : string) :
  plainChar c = true -> JS.whiteSpace (String c s) = None.
Proof.
  destruct c as [[] [] [] [] [] [] [] []]; try discriminate; intros _;
    destruct s as [|d [|e r]]; reflexivity.
Qed.

Lemma plain_app (a b : string) :
  plain (a ++ b) = true -> plain a = true /\ plain b = true.
Proof.
  induction a as [|c a IH]; simpl; [auto|].
  rewrite !andb_true_iff. intros [Hc H]. destruct (IH H). auto.
Qed.

Lemma matchLimit_first (c : ascii) (s : string) :
  JS.letter "L" "l" c = false -> JS.matchLimit (String c s) = None.
Proof.
  intros H. destruct s as [|c1 [|c2 [|c3 [|c4 s]]]]; try reflexivity.
  unfold JS.matchLimit. now rewrite H.
Qed.

(** What a match at the head of [s] consists of. *)
Lemma matchLimit_inv (s r : string) :
  JS.matchLimit s = Some r ->
  exists l i m i' t rest rest1 d rest2,
    s = String l (String i (String m (String i' (String t rest)))) /\
    JS.letter "I" "i" i = true /\ JS.letter "M" "m" m = true /\
    JS.letter "I" "i" i' = true /\ JS.letter "T" "t" t = true /\
    JS.whiteSpace rest = Some rest1 /\
    JS.whiteSpaces (String.length rest1) rest1 = String d rest2 /\
    JS.isDigit d = true.
Proof.
  destruct s as [|l [|i [|m [|i' [|t rest]]]]]; try discriminate.
  unfold JS.matchLimit.
  destruct (JS.letter "L" "l" l); [|discriminate].
  destruct (JS.letter "I" "i" i) eqn:Ei; [|discriminate].
  destruct (JS.letter "M" "m" m) eqn:Em; [|discriminate].
  destruct (JS.letter "I" "i" i') eqn:Ei'; [|discriminate].
  destruct (JS.letter "T" "t" t) eqn:Et; [|discriminate].
  cbn [andb].
  destruct (JS.whiteSpace rest) as [rest1|] eqn:Ews; [|discriminate].
  destruct (JS.whiteSpaces (String.length rest1) rest1) as [|d rest2] eqn:Erun;
    [discriminate|].
  destruct (JS.isDigit d) eqn:Ed; [|discriminate].
  intros _. exists l, i, m, i', t, rest, rest1, d, rest2. repeat split; assumption.
Qed.

Lemma replaceLimit_eq (s replacement : string) :
  JS.replaceLimit s replacement =
  match JS.matchLimit s with
  | Some rest => replacement ++ rest
  | None =>
      match s with
      | EmptyString => EmptyString
      | String c s' => String c (JS.replaceLimit s' replacement)
      end
  end.
Proof. destruct s; reflexivity. Qed.

Lemma quiet_empty (tail : string) : quiet EmptyString tail.
Proof. intros [|a pre] c post E; discriminate. Qed.

Lemma quiet_cons (c : ascii) (body tail : string) :
  JS.matchLimit (String c body ++ tail) = None -> quiet body tail ->
  quiet (String c body) tail.
Proof.
  intros Hc Hbody [|a pre] c' post E; injection E as <- E.
  - now subst.
  - now apply (Hbody pre).
Qed.

Lemma quiet_tail (c : ascii) (body tail : string) :
  quiet (String c body) tail -> quiet body tail.
Proof.
  intros H pre c' post E. apply (H (String c pre)). simpl. now rewrite E.
Qed.

Lemma quiet_app (a b tail : string) :
  quiet a (b ++ tail) -> quiet b tail -> quiet (a ++ b) tail.
Proof.
  induction a as [|x a IH]; intros Ha Hb; [exact Hb|].
  simpl. apply quiet_cons.
  - specialize (Ha EmptyString x a eq_refl). simpl in *.
    now rewrite append_assoc.
  - apply IH; [now apply quiet_tail in Ha | exact Hb].
Qed.

(** Where no match starts inside [body], the replacement happens in what
    follows it. *)
Lemma replaceLimit_quiet (body tail replacement : string) :
  quiet body tail ->
  JS.replaceLimit (body ++ tail) replacement =
  body ++ JS.replaceLimit tail replacement.
Proof.
  induction body as [|c body IH]; intros H; [reflexivity|].
  rewrite replaceLimit_eq. rewrite (H EmptyString c body eq_refl).
  simpl. f_equal. apply IH. now apply quiet_tail in H.
Qed.

(** No match starts inside a plain name that is followed by a character
    which is no letter of LIMIT, and by no white space and digit. *)
Lemma quiet_plain (name : string) (q : ascii) (tail : string) :
  plain name = true -> limitLetter q = false -> noLimitValue (String q tail) ->
  quiet name (String q tail).
Proof.
  intros Hplain Hq Hvalue pre c post ->.
  destruct (JS.matchLimit (String c post ++ String q tail)) as [r|] eqn:E;
    [exfalso | reflexivity].
  apply matchLimit_inv in E.
  destruct E as (l & i & m & i' & t & rest & rest1 & d & rest2 &
                 E & Hi & Hm & Hi' & Ht & Hws & Hrun & Hd).
  unfold limitLetter in Hq. apply orb_false_iff in Hq. destruct Hq as [Hq Hqt].
  apply orb_false_iff in Hq. destruct Hq as [Hq Hqm].
  apply orb_false_iff in Hq. destruct Hq as [_ Hqi].
  destruct post as [|c1 [|c2 [|c3 [|c4 post]]]]; simpl in E;
    inversion E; subst; try congruence.
  destruct post as [|x post].
  - cbn [append] in Hws. rewrite (Hvalue rest1 d rest2 Hws Hrun) in Hd. discriminate.
  - apply plain_app in Hplain. destruct Hplain as [_ Hplain].
    simpl in Hplain. repeat rewrite andb_true_iff in Hplain.
    destruct Hplain as (_ & _ & _ & _ & _ & Hx & _).
    cbn [append] in Hws. rewrite (whiteSpace_plain x _ Hx) in Hws. discriminate.
Qed.

Lemma quiet_char (c : ascii) (body tail : string) :
  JS.letter "L" "l" c = false -> quiet body tail -> quiet (String c body) tail.
Proof.
  intros Hc H. apply quiet_cons; [|exact H]. now apply matchLimit_first.
Qed.

Lemma quiet_plain_then (name : string) (q : ascii) (tail : string) :
  plain name = true -> plainChar q = true -> limitLetter q = false ->
  quiet name (String q tail).
Proof.
  intros Hname Hq Hletter. apply quiet_plain; try assumption.
  intros rest1 d rest2 Hws. now rewrite (whiteSpace_plain q tail Hq) in Hws.
Qed.

(** Proves [quiet literal tail] for a literal that has no match at any of
    its characters. *)
Ltac quiet_literal :=
  repeat (apply quiet_cons;
          [first [apply matchLimit_first; reflexivity | reflexivity]|]);
  apply quiet_empty.

(** The FROM clause of a table with plain names has no match before the
    final LIMIT clause. *)
Lemma quiet_from (projectKey datasetName tableName : string) :
  plain projectKey = true -> plain datasetName = true -> plain tableName = true ->
  quiet (JS.LF ++ "FROM `" ++ projectKey ++ "." ++ datasetName ++ "." ++
         tableName ++ "`" ++ JS.LF)
        "LIMIT 100".
Proof.
  intros Hp Hd Ht.
  change (JS.LF ++ "FROM `" ++ projectKey ++ "." ++ datasetName ++ "." ++
          tableName ++ "`" ++ JS.LF)
    with ((JS.LF ++ "FROM `") ++ projectKey ++ "." ++ datasetName ++ "." ++
          tableName ++ "`" ++ JS.LF).
  apply quiet_app; [unfold JS.LF; cbn [append]; quiet_literal|].
  apply quiet_app; [now apply quiet_plain_then|].
  apply quiet_char; [reflexivity|].
  apply quiet_app; [now apply quiet_plain_then|].
  apply quiet_char; [reflexivity|].
  apply quiet_app; [now apply quiet_plain_then|].
  unfold JS.LF. quiet_literal.
Qed.

(** The select list of plain columns has no match either. *)
Lemma quiet_join (columns : list string) (tail : string) :
  Forall (fun column => plain column = true) columns ->
  quiet (JS.join ("," ++ JS.LF ++ "  ") columns) (JS.LF ++ "FROM `" ++ tail).
Proof.
  induction 1 as [|x columns Hx Hcolumns IH]; [apply quiet_empty|].
  destruct columns as [|y columns].
  - apply quiet_plain; [exact Hx | reflexivity|].
    intros rest1 d rest2 Hws Hrun. injection Hws as <-.
    cbn in Hrun. injection Hrun as <- _. reflexivity.
  - change (JS.join ("," ++ JS.LF ++ "  ") (x :: y :: columns))
      with (x ++ ("," ++ JS.LF ++ "  ") ++ JS.join ("," ++ JS.LF ++ "  ") (y :: columns)).
    apply quiet_app; [now apply quiet_plain_then|].
    apply quiet_app; [unfold JS.LF; cbn [append]; quiet_literal | exact IH].
Qed.

(** On plain names, project, dataset, table and columns, the text that
    [generatePythonRequest] replaces is the LIMIT clause that ends the
    query. *)
Lemma replaceLimit_plain_names (projectKey datasetName tableName : string)
    (columnNames : option (list string)) :
  plain projectKey = true -> plain datasetName = true -> plain tableName = true ->
  (forall columns,
      columnNames = Some columns -> Forall (fun column => plain column = true) columns) ->
  exists body,
    generateQuery projectKey datasetName tableName columnNames = body ++ "LIMIT 100" /\
    JS.replaceLimit (generateQuery projectKey datasetName tableName columnNames)
                    "LIMIT @limit" = body ++ "LIMIT @limit".
Proof.
  intros Hp Hd Ht Hcolumns.
  pose proof (quiet_from projectKey datasetName tableName Hp Hd Ht) as Hfrom.
  assert (Hlast : forall body,
             quiet body "LIMIT 100" ->
             JS.replaceLimit (body ++ "LIMIT 100") "LIMIT @limit" =
             body ++ "LIMIT @limit")
    by (intros body H; now rewrite replaceLimit_quiet).
  assert (Hstar : exists body,
             "SELECT" ++ JS.LF ++ "  *" ++ JS.LF ++
             "FROM `" ++ projectKey ++ "." ++ datasetName ++ "." ++ tableName ++ "`" ++
             JS.LF ++ "LIMIT 100" = body ++ "LIMIT 100" /\
             quiet body "LIMIT 100").
  { exists (("SELECT" ++ JS.LF ++ "  *") ++
            JS.LF ++ "FROM `" ++ projectKey ++ "." ++ datasetName ++ "." ++
            tableName ++ "`" ++ JS.LF).
    split; [flatten_append; reflexivity|].
    apply quiet_app; [unfold JS.LF; cbn [append]; quiet_literal | exact Hfrom]. }
  destruct columnNames as [[|c columns]|].
  - destruct Hstar as (body & E & Hquiet). exists body.
    unfold generateQuery. rewrite E. auto.
  - exists (("SELECT" ++ JS.LF ++ "  ") ++
            JS.join ("," ++ JS.LF ++ "  ") (Legacy.filterNestedColumns (c :: columns)) ++
            JS.LF ++ "FROM `" ++ projectKey ++ "." ++ datasetName ++ "." ++
            tableName ++ "`" ++ JS.LF).
    assert (E : generateQuery projectKey datasetName tableName (Some (c :: columns)) =
                (("SELECT" ++ JS.LF ++ "  ") ++
                 JS.join ("," ++ JS.LF ++ "  ")
                   (Legacy.filterNestedColumns (c :: columns)) ++
                 JS.LF ++ "FROM `" ++ projectKey ++ "." ++ datasetName ++ "." ++
                 tableName ++ "`" ++ JS.LF) ++ "LIMIT 100").
    { rewrite generateQuery_cons. unfold Legacy.generateQuery.
      flatten_append; reflexivity. }
    rewrite E. split; [reflexivity|]. apply Hlast.
    apply quiet_app; [unfold JS.LF; cbn [append]; quiet_literal|].
    apply quiet_app; [|exact Hfrom].
    replace ((JS.LF ++ "FROM `" ++ projectKey ++ "." ++ datasetName ++ "." ++
              tableName ++ "`" ++ JS.LF) ++ "LIMIT 100")
      with (JS.LF ++ "FROM `" ++ projectKey ++ "." ++ datasetName ++ "." ++
            tableName ++ "`" ++ JS.LF ++ "LIMIT 100")
      by (flatten_append; reflexivity).
    apply quiet_join. apply Forall_forall. intros x Hx.
    unfold Legacy.filterNestedColumns in Hx. apply filter_In in Hx.
    destruct Hx as [Hx _].
    exact (proj1 (Forall_forall _ _) (Hcolumns _ eq_refl) x Hx).
  - destruct Hstar as (body & E & Hquiet). exists body.
    unfold generateQuery. rewrite E. auto.
Qed.

(** C7 fails on a table whose name has text that reads like a LIMIT
    clause: the replacement rewrites the table reference and the fixed
    [LIMIT 100] stays in the embedded query. *)
Theorem python_request_limit_in_table_name :
  generateQuery "proj" "ds" "credit limit 2024" None =
  "SELECT" ++ JS.LF ++ "  *" ++ JS.LF ++ "FROM `proj.ds.credit limit 2024`" ++ JS.LF ++
  "LIMIT 100" /\
  embeddedQuery "proj" "ds" "credit limit 2024" None =
  "    SELECT" ++ JS.LF ++ "      *" ++ JS.LF ++
  "    FROM `proj.ds.credit LIMIT @limit`" ++ JS.LF ++ "    LIMIT 100" /\
  contains (embeddedQuery "proj" "ds" "credit limit 2024" None) "LIMIT 100" /\
  contains (generatePythonRequest "proj" "ds" "credit limit 2024" None)
           ("    FROM `proj.ds.credit LIMIT @limit`" ++ JS.LF ++ "    LIMIT 100" ++ JS.LF).
Proof.
  repeat split.
  - apply includes_spec. vm_compute. reflexivity.
  - apply includes_spec. vm_compute. reflexivity.
Qed.

(** On names without such text the LIMIT clause is the one replaced. *)
Example python_request_ordinary :
  embeddedQuery "proj" "ds" "tbl" (Some ["address"; "address.city"; "name"]) =
  "    SELECT" ++ JS.LF ++ "      address," ++ JS.LF ++ "      name" ++ JS.LF ++
  "    FROM `proj.ds.tbl`" ++ JS.LF ++ "    LIMIT @limit" /\
  JS.includes (generatePythonRequest "proj" "ds" "tbl" None) "LIMIT 100" = false.
Proof. split; vm_compute; reflexivity. Qed.

(** ** Schema formatting *)

Lemma or_else_spec (value : option string) (fallback : string) :
  (value = None \/ value = Some EmptyString -> or_else value fallback = fallback) /\
  (forall text, value = Some text -> text <> EmptyString -> or_else value fallback = text).
Proof.
  split.
  - intros [-> | ->]; reflexivity.
  - intros text -> Hne. destruct text; [congruence | reflexivity].
Qed.

(** One formatted column per property of the schema object, in the order
    [Object.entries] lists them; name and type copied; the placeholder
    exactly for a missing or empty description. *)
Lemma formatSchema_entries (schema : JSObject ColumnInfo.t) :
  Forall2 formatted (Object_entries schema) (formatSchema schema) /\
  List.length (formatSchema schema) = List.length (Object_keys schema) /\
  map FormattedColumn.name (formatSchema schema) = Object_keys schema /\
  formatSchema
    [("col1", {| ColumnInfo.type := "STRING"; ColumnInfo.description := None |})] =
  [{| FormattedColumn.name := "col1"; FormattedColumn.type := "STRING";
      FormattedColumn.description := "Sem descrição" |}].
Proof.
  unfold formatSchema, Object_entries, Object_keys. repeat split.
  - induction schema as [|[columnName columnInfo] schema IH]; constructor;
      [|exact IH].
    repeat split; try apply or_else_spec.
  - now rewrite !length_map.
  - rewrite map_map. apply map_ext. now intros [columnName columnInfo].
Qed.

(** ** Objects *)

Lemma own_In {V} (o : JSObject V) (key : string) (v : V) :
  own o key = Some v -> In (key, v) o.
Proof.
  induction o as [|[k w] o IH]; simpl; [discriminate|].
  destruct (String.eqb k key) eqn:E.
  - apply String.eqb_eq in E. intros [= ->]. left. now subst.
  - intros H. right. now apply IH.
Qed.

Lemma own_keys {V} (o : JSObject V) (key : string) :
  In key (Object_keys o) <-> exists v, own o key = Some v.
Proof.
  unfold Object_keys. split.
  - induction o as [|[k w] o IH]; simpl; [tauto|].
    destruct (String.eqb k key) eqn:E; [now exists w|].
    intros [-> | H]; [now rewrite String.eqb_refl in E | now apply IH].
  - intros [v H]. apply own_In in H. apply (in_map fst) in H. exact H.
Qed.

(** With distinct keys, the own value of a key is the value of its entry. *)
Lemma own_entry {V} (o : JSObject V) (key : string) (v : V) :
  distinct_keys o -> In (key, v) o -> own o key = Some v.
Proof.
  unfold distinct_keys, Object_keys.
  induction o as [|[k w] o IH]; simpl; intros Hnd Hin; [destruct Hin|].
  inversion Hnd as [|? ? Hk Hnd']; subst.
  destruct Hin as [[= -> ->] | Hin].
  - now rewrite String.eqb_refl.
  - destruct (String.eqb k key) eqn:E; [|now apply IH].
    apply String.eqb_eq in E. subst k. exfalso. apply Hk.
    now apply (in_map fst) in Hin.
Qed.

Lemma ownValue_keys {V} (o : JSObject V) (key : string) :
  In key (Object_keys o) ->
  exists v, own o key = Some v /\ ownValue o key = Normal v.
Proof.
  intros H. apply own_keys in H. destruct H as [v H]. exists v.
  unfold ownValue. now rewrite H.
Qed.

Lemma Get_own {V} (o : JSObject V) (key : string) (v : V) :
  own o key = Some v -> Get o key = Own v.
Proof. unfold Get. now intros ->. Qed.

Lemma Get_absent {V} (o : JSObject V) (key : string) :
  own o key = None -> JS.array_includes Object_prototype_names key = false ->
  Get o key = Undefined.
Proof. unfold Get. now intros -> ->. Qed.

Lemma Get_inherited {V} (o : JSObject V) (key : string) :
  own o key = None -> JS.array_includes Object_prototype_names key = true ->
  Get o key = Inherited.
Proof. unfold Get. now intros -> ->. Qed.

(** ** Insertion-ordered sets *)

Lemma Set_add_In (elements : list string) (x y : string) :
  In y (Set_add elements x) <-> In y elements \/ y = x.
Proof.
  unfold Set_add. destruct (JS.array_includes elements x) eqn:E.
  - apply array_includes_In in E. split; [tauto|]. intros [H | ->]; assumption.
  - rewrite in_app_iff. simpl. intuition congruence.
Qed.

Lemma Set_add_NoDup (elements : list string) (x : string) :
  NoDup elements -> NoDup (Set_add elements x).
Proof.
  unfold Set_add. intros H. destruct (JS.array_includes elements x) eqn:E;
    [assumption|].
  apply array_includes_not_In in E.
  apply NoDup_app; [assumption | repeat constructor; intros [] |].
  intros y Hy [<- | []]. contradiction.
Qed.

(** The inner loop of [getDatasetNames]. *)
Lemma add_names_loop (datasetNames allNames : list string) :
  exists names,
    forEach datasetNames
      (fun datasetName allNames => Normal (Set_add allNames datasetName)) allNames =
    Normal names /\
    (NoDup allNames -> NoDup names) /\
    forall n, In n names <-> In n allNames \/ In n datasetNames.
Proof.
  revert allNames. induction datasetNames as [|d datasetNames IH]; intros allNames.
  - exists allNames. simpl. tauto.
  - destruct (IH (Set_add allNames d)) as (names & E & Hnd & Hin).
    exists names. simpl. repeat split.
    + exact E.
    + intros H. now apply Hnd, Set_add_NoDup.
    + rewrite Hin, Set_add_In. intuition (subst; auto).
    + rewrite Hin, Set_add_In. intuition (subst; auto).
Qed.

(** The outer loop of [getDatasetNames], over project keys of the catalog. *)
Lemma project_names_loop (catalog : CatalogData) (projectKeys allNames : list string) :
  (forall projectKey, In projectKey projectKeys -> In projectKey (Object_keys catalog)) ->
  exists names,
    forEach projectKeys
      (fun projectKey allNames =>
         datasets <- ownValue catalog projectKey ;;
         forEach (Object_keys datasets)
           (fun datasetName allNames => Normal (Set_add allNames datasetName))
           allNames)
      allNames = Normal names /\
    (NoDup allNames -> NoDup names) /\
    forall n,
      In n names <->
      In n allNames \/
      exists projectKey datasets,
        In projectKey projectKeys /\ own catalog projectKey = Some datasets /\
        In n (Object_keys datasets).
Proof.
  revert allNames. induction projectKeys as [|p projectKeys IH]; intros allNames Hkeys.
  - exists allNames. simpl. repeat split; auto.
    intros [H | (q & ds & [] & _)]. exact H.
  - destruct (ownValue_keys catalog p (Hkeys p (or_introl eq_refl))) as (ds & Hown & Hval).
    destruct (add_names_loop (Object_keys ds) allNames) as (mid & Emid & Hnd & Hin).
    destruct (IH mid (fun q Hq => Hkeys q (or_intror Hq))) as (names & E & Hnd' & Hin').
    exists names. simpl. rewrite Hval. simpl. rewrite Emid. simpl.
    repeat split; auto.
    + rewrite Hin', Hin. intros [[H | H] | (q & dsq & Hq & Hownq & Hn)].
      * now left.
      * right. exists p, ds. auto.
      * right. exists q, dsq. auto.
    + rewrite Hin', Hin. intros [H | (q & dsq & [<- | Hq] & Hownq & Hn)].
      * auto.
      * rewrite Hown in Hownq. injection Hownq as <-. auto.
      * right. exists q, dsq. auto.
Qed.

(** C9.  [getDatasetNames] returns, without repetition, exactly the names
    that are a dataset name under some project key. *)
Theorem getDatasetNames_exact (catalog : CatalogData) :
  exists names,
    getDatasetNames (Normal catalog) = Normal names /\
    NoDup names /\
    (forall n,
        In n names <->
        exists projectKey datasets,
          own catalog projectKey = Some datasets /\ In n (Object_keys datasets)) /\
    (distinct_keys catalog ->
     forall n,
       In n names <->
       exists projectKey datasets,
         In (projectKey, datasets) catalog /\ In n (Object_keys datasets)).
Proof.
  destruct (project_names_loop catalog (Object_keys catalog) [] (fun _ H => H))
    as (names & E & Hnd & Hin).
  assert (Hown : forall n,
             In n names <->
             exists projectKey datasets,
               own catalog projectKey = Some datasets /\ In n (Object_keys datasets)).
  { intros n. rewrite Hin. split.
    - intros [[] | (p & ds & _ & Hown & Hn)]. now exists p, ds.
    - intros (p & ds & Hown & Hn). right. exists p, ds. repeat split; auto.
      apply own_keys. now exists ds. }
  exists names. unfold getDatasetNames, getProjectKeys. simpl. rewrite E. simpl.
  repeat split.
  - apply Hnd. constructor.
  - apply Hown.
  - apply Hown.
  - rewrite Hown. intros (p & ds & Hp & Hn). exists p, ds. split; [|exact Hn].
    now apply own_In.
  - rewrite Hown. intros (p & ds & Hp & Hn). exists p, ds. split; [|exact Hn].
    now apply own_entry.
Qed.

(** ** Listing the datasets *)

Section Datasets.

Variable getTime : string -> number.

(** The inner loop of [getDatasets], over dataset names of one project. *)
Lemma dataset_views_loop (projectKey : string) (datasets : JSObject DatasetRaw.t)
    (datasetNames : list string) (allDatasets : list Dataset.t) :
  (forall n, In n datasetNames -> In n (Object_keys datasets)) ->
  exists views,
    forEach datasetNames
      (fun datasetName allDatasets =>
         dataset <- ownValue datasets datasetName ;;
         Normal (allDatasets ++ [viewOf getTime projectKey datasetName dataset])%list)
      allDatasets = Normal views /\
    forall v,
      In v views <->
      In v allDatasets \/
      exists datasetName raw,
        In datasetName datasetNames /\ own datasets datasetName = Some raw /\
        v = viewOf getTime projectKey datasetName raw.
Proof.
  revert allDatasets.
  induction datasetNames as [|d datasetNames IH]; intros allDatasets Hkeys.
  - exists allDatasets. simpl. split; [reflexivity|].
    intros v. split; [auto|]. intros [H | (n & raw & [] & _)]. exact H.
  - destruct (ownValue_keys datasets d (Hkeys d (or_introl eq_refl)))
      as (raw & Hown & Hval).
    destruct (IH (allDatasets ++ [viewOf getTime projectKey d raw])%list
                 (fun n Hn => Hkeys n (or_intror Hn))) as (views & E & Hin).
    exists views. simpl. rewrite Hval. simpl. split; [exact E|].
    intros v. rewrite Hin, in_app_iff. simpl. split.
    + intros [[H | [<- | []]] | (n & raw' & Hn & Hown' & ->)].
      * now left.
      * right. exists d, raw. auto.
      * right. exists n, raw'. auto.
    + intros [H | (n & raw' & [<- | Hn] & Hown' & ->)].
      * auto.
      * rewrite Hown in Hown'. injection Hown' as <-. auto.
      * right. exists n, raw'. auto.
Qed.

(** The outer loop of [getDatasets], over project keys of the catalog. *)
Lemma project_views_loop (catalog : CatalogData) (projectKeys : list string)
    (allDatasets : list Dataset.t) :
  (forall p, In p projectKeys -> In p (Object_keys catalog)) ->
  exists views,
    forEach projectKeys
      (fun projectKey allDatasets =>
         datasets <- ownValue catalog projectKey ;;
         forEach (Object_keys datasets)
           (fun datasetName allDatasets =>
              dataset <- ownValue datasets datasetName ;;
              Normal (allDatasets ++ [viewOf getTime projectKey datasetName dataset])%list)
           allDatasets)
      allDatasets = Normal views /\
    forall v,
      In v views <->
      In v allDatasets \/
      exists projectKey datasets datasetName raw,
        In projectKey projectKeys /\ own catalog projectKey = Some datasets /\
        own datasets datasetName = Some raw /\
        v = viewOf getTime projectKey datasetName raw.
Proof.
  revert allDatasets.
  induction projectKeys as [|p projectKeys IH]; intros allDatasets Hkeys.
  - exists allDatasets. simpl. split; [reflexivity|].
    intros v. split; [auto|]. intros [H | (q & ds & n & raw & [] & _)]. exact H.
  - destruct (ownValue_keys catalog p (Hkeys p (or_introl eq_refl)))
      as (ds & Hown & Hval).
    destruct (dataset_views_loop p ds (Object_keys ds) allDatasets (fun _ H => H))
      as (mid & Emid & Hmid).
    destruct (IH mid (fun q Hq => Hkeys q (or_intror Hq))) as (views & E & Hin).
    exists views. simpl. rewrite Hval. simpl. rewrite Emid. simpl.
    split; [exact E|].
    intros v. rewrite Hin, Hmid. split.
    + intros [[H | (n & raw & Hn & Hraw & ->)] | (q & dsq & n & raw & Hq & Hdsq & Hraw & ->)].
      * now left.
      * right. exists p, ds, n, raw. auto.
      * right. exists q, dsq, n, raw. auto.
    + intros [H | (q & dsq & n & raw & [<- | Hq] & Hdsq & Hraw & ->)].
      * auto.
      * rewrite Hown in Hdsq. injection Hdsq as <-.
        left. right. exists n, raw. repeat split; auto.
        apply own_keys. now exists raw.
      * right. exists q, dsq, n, raw. auto.
Qed.

(** [getDatasets] never throws on a loaded catalog, and its views are those
    of the datasets of the catalog. *)
Lemma getDatasets_views (catalog : CatalogData) :
  exists views,
    getDatasets (Normal catalog) getTime = Normal views /\
    forall v,
      In v views <->
      exists projectKey datasets datasetName raw,
        own catalog projectKey = Some datasets /\
        own datasets datasetName = Some raw /\
        v = viewOf getTime projectKey datasetName raw.
Proof.
  destruct (project_views_loop catalog (Object_keys catalog) [] (fun _ H => H))
    as (views & E & Hin).
  exists views. split; [exact E|].
  intros v. rewrite Hin. split.
  - intros [[] | (p & ds & n & raw & _ & H)]. now exists p, ds, n, raw.
  - intros (p & ds & n & raw & Hds & H). right. exists p, ds, n, raw.
    split; [|now split]. apply own_keys. now exists ds.
Qed.

(** An exception of [loadCatalogData] is the exception of [getDatasets]. *)
Lemma getDatasets_load_failure (e : exception) :
  getDatasets (Throw e) getTime = Throw e.
Proof. reflexivity. Qed.

End Datasets.

(** C2, as stated, fails: a dataset without tables gets a view, and
    [getDatasets] returns normally. *)
Lemma getDatasets_empty_tables_returns :
  getDatasets
    (Normal [("p1", [("empty", {| DatasetRaw.description := "no tables";
                                  DatasetRaw.tables := [] |})])])
    (fun _ => NaN) =
  Normal [{| Dataset.name := "empty"; Dataset.project := "p1";
             Dataset.description := "no tables"; Dataset.tableCount := 0;
             Dataset.lastUpdated := NegInfinity |}] /\
  forall e,
    getDatasets
      (Normal [("p1", [("empty", {| DatasetRaw.description := "no tables";
                                    DatasetRaw.tables := [] |})])])
      (fun _ => NaN) <> Throw e.
Proof. split; [reflexivity | discriminate]. Qed.

(** C2, amended.  For a dataset whose list of tables is empty,
    [getDatasets] returns normally and the view of that dataset has
    [tableCount] 0 and [lastUpdated] minus infinity, the maximum of no
    argument. *)
Theorem getDatasets_empty_tables (getTime : string -> number) (catalog : CatalogData)
    (projectKey datasetName : string) (datasets : JSObject DatasetRaw.t)
    (raw : DatasetRaw.t) :
  own catalog projectKey = Some datasets ->
  own datasets datasetName = Some raw ->
  DatasetRaw.tables raw = [] ->
  exists views,
    getDatasets (Normal catalog) getTime = Normal views /\
    In {| Dataset.name := datasetName; Dataset.project := projectKey;
          Dataset.description := DatasetRaw.description raw;
          Dataset.tableCount := 0; Dataset.lastUpdated := NegInfinity |} views.
Proof.
  intros Hds Hraw Hempty.
  destruct (getDatasets_views getTime catalog) as (views & E & Hin).
  exists views. split; [exact E|].
  apply Hin. exists projectKey, datasets, datasetName, raw.
  repeat split; try assumption.
  unfold viewOf. now rewrite Hempty.
Qed.

Lemma getDatasets_empty_tables_example :
  exists views,
    getDatasets
      (Normal [("p1", [("empty", {| DatasetRaw.description := "no tables";
                                    DatasetRaw.tables := [] |})])])
      (fun _ => NaN) = Normal views /\
    In {| Dataset.name := "empty"; Dataset.project := "p1";
          Dataset.description := "no tables";
          Dataset.tableCount := 0; Dataset.lastUpdated := NegInfinity |} views.
Proof.
  apply (getDatasets_empty_tables (fun _ => NaN)
           [("p1", [("empty", {| DatasetRaw.description := "no tables";
                                 DatasetRaw.tables := [] |})])]
           "p1" "empty"
           [("empty", {| DatasetRaw.description := "no tables";
                         DatasetRaw.tables := [] |})]
           {| DatasetRaw.description := "no tables"; DatasetRaw.tables := [] |});
    reflexivity.
Defined.

(** The single-project [getDatasets] treats a dataset without tables the
    same way. *)
Lemma single_project_views (getTime : string -> number)
    (datasets : JSObject DatasetRaw.t) (datasetNames : list string) :
  (forall n, In n datasetNames -> In n (Object_keys datasets)) ->
  exists views,
    mapM (fun datasetName =>
            dataset <- ownValue datasets datasetName ;;
            Normal {| SingleProject.Dataset.name := datasetName;
                      SingleProject.Dataset.description := DatasetRaw.description dataset;
                      SingleProject.Dataset.tableCount :=
                        List.length (DatasetRaw.tables dataset);
                      SingleProject.Dataset.lastUpdated :=
                        Math_max (map (fun table => getTime (Table.created_at table))
                                      (DatasetRaw.tables dataset)) |})
         datasetNames = Normal views /\
    forall datasetName raw,
      In datasetName datasetNames -> own datasets datasetName = Some raw ->
      In {| SingleProject.Dataset.name := datasetName;
            SingleProject.Dataset.description := DatasetRaw.description raw;
            SingleProject.Dataset.tableCount := List.length (DatasetRaw.tables raw);
            SingleProject.Dataset.lastUpdated :=
              Math_max (map (fun table => getTime (Table.created_at table))
                            (DatasetRaw.tables raw)) |} views.
Proof.
  induction datasetNames as [|d datasetNames IH]; intros Hkeys.
  - exists []. split; [reflexivity|]. intros n raw [].
  - destruct (ownValue_keys datasets d (Hkeys d (or_introl eq_refl)))
      as (raw & Hown & Hval).
    destruct (IH (fun n Hn => Hkeys n (or_intror Hn))) as (views & E & Hin).
    eexists. simpl. rewrite Hval. simpl. rewrite E. simpl. split; [reflexivity|].
    intros n raw' [<- | Hn] Hraw.
    + rewrite Hown in Hraw. injection Hraw as <-. now left.
    + right. now apply Hin.
Qed.

Lemma single_project_empty_tables (getTime : string -> number) (catalog : CatalogData)
    (datasetName : string) (datasets : JSObject DatasetRaw.t) (raw : DatasetRaw.t) :
  own catalog "rj-iplanrio" = Some datasets ->
  own datasets datasetName = Some raw ->
  DatasetRaw.tables raw = [] ->
  exists views,
    SingleProject.getDatasets (Normal catalog) getTime = Normal views /\
    In {| SingleProject.Dataset.name := datasetName;
          SingleProject.Dataset.description := DatasetRaw.description raw;
          SingleProject.Dataset.tableCount := 0;
          SingleProject.Dataset.lastUpdated := NegInfinity |} views.
Proof.
  intros Hds Hraw Hempty.
  destruct (single_project_views getTime datasets (Object_keys datasets) (fun _ H => H))
    as (views & E & Hin).
  exists views. unfold SingleProject.getDatasets. simpl. rewrite Hds.
  split; [exact E|].
  assert (Hn : In datasetName (Object_keys datasets))
    by (apply own_keys; now exists raw).
  specialize (Hin datasetName raw Hn Hraw). now rewrite Hempty in Hin.
Qed.

(** ** Looking a dataset up by name *)

(** The loop passes over the projects where [datasets[datasetName]] is
    [undefined] and returns at the first project where it is not. *)
Lemma findDataset_skip (catalog : CatalogData) (datasetName : string)
    (before rest : list string) :
  (forall q, In q before ->
     exists datasets, own catalog q = Some datasets /\
                      Get datasets datasetName = Undefined) ->
  findDataset catalog datasetName (before ++ rest)%list =
  findDataset catalog datasetName rest.
Proof.
  induction before as [|q before IH]; intros H; [reflexivity|].
  destruct (H q (or_introl eq_refl)) as (datasets & Hown & Hget).
  simpl. unfold ownValue. rewrite Hown. simpl. rewrite Hget. simpl.
  apply IH. intros q' Hq'. apply H. now right.
Qed.

Lemma findDataset_missing (catalog : CatalogData) (datasetName : string)
    (projectKeys : list string) :
  (forall q, In q projectKeys ->
     exists datasets, own catalog q = Some datasets /\
                      Get datasets datasetName = Undefined) ->
  findDataset catalog datasetName projectKeys =
  Throw (Error (notFoundMessage datasetName)).
Proof.
  intros H. rewrite <- (app_nil_r projectKeys).
  now rewrite findDataset_skip.
Qed.

(** For a name that [Object.prototype] does not have, a name that is under
    no project is reported with the error of [getDatasetByName]. *)
Lemma getDatasetByName_missing (catalog : CatalogData) (datasetName : string) :
  JS.array_includes Object_prototype_names datasetName = false ->
  (forall projectKey datasets,
      own catalog projectKey = Some datasets -> own datasets datasetName = None) ->
  getDatasetByName (Normal catalog) datasetName =
  Throw (Error (notFoundMessage datasetName)).
Proof.
  intros Hproto Hmissing. unfold getDatasetByName, getProjectKeys. simpl.
  apply findDataset_missing. intros q Hq.
  apply own_keys in Hq. destruct Hq as [datasets Hown].
  exists datasets. split; [exact Hown|].
  apply Get_absent; [now apply (Hmissing q) | exact Hproto].
Qed.

(** For such a name, the first project that has the dataset wins. *)
Lemma getDatasetByName_first (catalog : CatalogData) (datasetName : string)
    (before after : list string) (projectKey : string)
    (datasets : JSObject DatasetRaw.t) (raw : DatasetRaw.t) :
  JS.array_includes Object_prototype_names datasetName = false ->
  Object_keys catalog = (before ++ projectKey :: after)%list ->
  (forall q datasets',
      In q before -> own catalog q = Some datasets' ->
      own datasets' datasetName = None) ->
  own catalog projectKey = Some datasets ->
  own datasets datasetName = Some raw ->
  getDatasetByName (Normal catalog) datasetName =
  Normal {| DatasetFull.name := datasetName;
            DatasetFull.project := projectKey;
            DatasetFull.description := Some (DatasetRaw.description raw);
            DatasetFull.tables := Some (DatasetRaw.tables raw) |}.
Proof.
  intros Hproto Hkeys Hbefore Hds Hraw. unfold getDatasetByName, getProjectKeys.
  simpl. rewrite Hkeys, findDataset_skip.
  - simpl. unfold ownValue. rewrite Hds. simpl.
    now rewrite (Get_own datasets datasetName raw Hraw).
  - intros q Hq.
    assert (Hin : In q (Object_keys catalog))
      by (rewrite Hkeys; apply in_or_app; now left).
    apply own_keys in Hin. destruct Hin as [datasets' Hown].
    exists datasets'. split; [exact Hown|].
    apply Get_absent; [now apply (Hbefore q) | exact Hproto].
Qed.

(** C3 fails on a name that every object inherits: ["toString"] is a
    dataset name under no project, and [getDatasetByName] returns an object
    whose description and tables are undefined, under the first project
    key. *)
Theorem getDatasetByName_inherited_name :
  let catalog : CatalogData :=
    [("p1", [("sales", {| DatasetRaw.description := "Sales";
                          DatasetRaw.tables := [] |})])] in
  (forall projectKey datasets,
      own catalog projectKey = Some datasets -> own datasets "toString" = None) /\
  getDatasetByName (Normal catalog) "toString" =
  Normal {| DatasetFull.name := "toString"; DatasetFull.project := "p1";
            DatasetFull.description := None; DatasetFull.tables := None |} /\
  getDatasetByName (Normal catalog) "constructor" =
  Normal {| DatasetFull.name := "constructor"; DatasetFull.project := "p1";
            DatasetFull.description := None; DatasetFull.tables := None |} /\
  getDatasetByName (Normal catalog) "does-not-exist" =
  Throw (Error ("Dataset " ++ JS.DQ ++ "does-not-exist" ++ JS.DQ ++
                " not found in any project")).
Proof.
  intros catalog. subst catalog. split; [|repeat split].
  intros projectKey datasets H. cbn [own] in H.
  destruct (String.eqb "p1" projectKey); [|discriminate].
  injection H as <-. reflexivity.
Qed.

(** C5 fails on such a name too: with ["toString"] a dataset of the second
    and of the third project and not of the first, the result carries the
    first project key and no dataset. *)
Theorem getDatasetByName_inherited_name_first_project :
  let sales := {| DatasetRaw.description := "Sales"; DatasetRaw.tables := [] |} in
  let d1 := {| DatasetRaw.description := "first"; DatasetRaw.tables := [] |} in
  let d2 := {| DatasetRaw.description := "second"; DatasetRaw.tables := [] |} in
  let catalog : CatalogData :=
    [("p0", [("sales", sales)]);
     ("p1", [("toString", d1)]);
     ("p2", [("toString", d2)])] in
  getProjectKeys (Normal catalog) = Normal ["p0"; "p1"; "p2"] /\
  (exists datasets,
      own catalog "p0" = Some datasets /\ own datasets "toString" = None) /\
  (exists datasets,
      own catalog "p1" = Some datasets /\ own datasets "toString" = Some d1) /\
  (exists datasets,
      own catalog "p2" = Some datasets /\ own datasets "toString" = Some d2) /\
  getDatasetByName (Normal catalog) "toString" =
  Normal {| DatasetFull.name := "toString"; DatasetFull.project := "p0";
            DatasetFull.description := None; DatasetFull.tables := None |}.
Proof.
  intros sales d1 d2 catalog. subst catalog.
  split; [reflexivity|]. split; [|split; [|split]].
  - eexists. split; reflexivity.
  - eexists. split; reflexivity.
  - eexists. split; reflexivity.
  - reflexivity.
Qed.

(** With an ordinary name in the same places, the second project wins over
    the third. *)
Example getDatasetByName_first_example :
  getDatasetByName
    (Normal [("p0", [("taxes", {| DatasetRaw.description := "Taxes";
                                  DatasetRaw.tables := [] |})]);
             ("p1", [("sales", {| DatasetRaw.description := "first";
                                  DatasetRaw.tables := [] |})]);
             ("p2", [("sales", {| DatasetRaw.description := "second";
                                  DatasetRaw.tables := [] |})])])
    "sales" =
  Normal {| DatasetFull.name := "sales"; DatasetFull.project := "p1";
            DatasetFull.description := Some "first";
            DatasetFull.tables := Some [] |}.
Proof. reflexivity. Qed.

(** * Further properties *)

(** ** What the filter guarantees to the query *)

(** X1.  Nothing selected is lost: a selected column is in the query, or
    it is a nested column whose parent, the name before its first ['.'],
    is in the query in its place. *)
Theorem selected_column_covered (columnNames : list string) (c : string) :
  In c columnNames ->
  In c (Legacy.filterNestedColumns columnNames) \/
  exists parent rest,
    c = parent ++ "." ++ rest /\ ~ dotted parent /\
    In parent (Legacy.filterNestedColumns columnNames).
Proof.
  intros Hin.
  destruct (in_dec string_dec c (Legacy.filterNestedColumns columnNames)) as [H|H];
    [now left | right].
  destruct (dropped_only_for_root columnNames c Hin H) as (parent & rest & E & Hp & Hsel).
  exists parent, rest. repeat split; try assumption. now apply kept_undotted.
Qed.

Lemma selected_column_covered_example :
  In "address.city" (Legacy.filterNestedColumns ["address"; "address.city"]) \/
  exists parent rest,
    "address.city" = parent ++ "." ++ rest /\ ~ dotted parent /\
    In parent (Legacy.filterNestedColumns ["address"; "address.city"]).
Proof.
  apply (selected_column_covered ["address"; "address.city"] "address.city").
  simpl. auto.
Defined.

(** X2.  The query never lists a column together with one of its nested
    columns. *)
Theorem parent_and_child_never_both (columnNames : list string)
    (parent rest : string) :
  ~ dotted parent ->
  In parent (Legacy.filterNestedColumns columnNames) ->
  ~ In (parent ++ "." ++ rest) (Legacy.filterNestedColumns columnNames).
Proof.
  intros Hp Hkept. apply dropped_child; [exact Hp|].
  apply kept_iff in Hkept. tauto.
Qed.

Lemma parent_and_child_never_both_example :
  ~ In ("address" ++ "." ++ "city")
       (Legacy.filterNestedColumns ["address.city"; "address"; "name"]).
Proof.
  apply (parent_and_child_never_both ["address.city"; "address"; "name"]
           "address" "city").
  - apply not_dotted. reflexivity.
  - simpl. auto.
Defined.

(** ** The lines of the embedded query *)

Lemma includes_char_cons (x c : ascii) (s : string) :
  JS.includes (String x s) (String c EmptyString) =
  Ascii.eqb c x || JS.includes s (String c EmptyString).
Proof. cbn [JS.includes JS.startsWith]. now rewrite andb_true_r. Qed.

Lemma includes_char_app (c : ascii) (a b : string) :
  JS.includes (a ++ b) (String c EmptyString) =
  JS.includes a (String c EmptyString) || JS.includes b (String c EmptyString).
Proof.
  induction a as [|x a IH].
  - destruct b; reflexivity.
  - cbn [append]. rewrite !includes_char_cons, IH. now rewrite orb_assoc.
Qed.

Lemma split_not_empty (sep : ascii) (s : string) : JS.split sep s <> [].
Proof.
  destruct s as [|c s]; simpl; [discriminate|].
  destruct (Ascii.eqb c sep); [discriminate|].
  destruct (JS.split sep s); discriminate.
Qed.

(** No piece of a split contains the separator. *)
Lemma split_pieces (sep : ascii) (s : string) :
  Forall (fun piece => JS.includes piece (String sep EmptyString) = false)
         (JS.split sep s).
Proof.
  induction s as [|c s IH]; simpl.
  - now repeat constructor.
  - destruct (Ascii.eqb c sep) eqn:E.
    + now constructor.
    + destruct (JS.split sep s) as [|piece pieces] eqn:Es;
        [now apply split_not_empty in Es|].
      inversion IH; subst. constructor; [|assumption].
      rewrite includes_char_cons, Ascii.eqb_sym, E. assumption.
Qed.

(** Splitting what was joined gives the items back, when there is an item
    and no item contains the separator. *)
Lemma split_join (sep : ascii) (items : list string) :
  items <> [] ->
  Forall (fun item => JS.includes item (String sep EmptyString) = false) items ->
  JS.split sep (JS.join (String sep EmptyString) items) = items.
Proof.
  assert (Hone : forall item tail,
             JS.includes item (String sep EmptyString) = false ->
             JS.split sep (item ++ String sep tail) = item :: JS.split sep tail).
  { induction item as [|c item IH]; intros tail H.
    - cbn [append JS.split]. now rewrite Ascii.eqb_refl.
    - rewrite includes_char_cons in H. apply orb_false_iff in H. destruct H as [Hc H].
      cbn [append JS.split]. rewrite Ascii.eqb_sym, Hc, (IH tail H). reflexivity. }
  assert (Hlast : forall item,
             JS.includes item (String sep EmptyString) = false ->
             JS.split sep item = [item]).
  { induction item as [|c item IH]; intros H; [reflexivity|].
    rewrite includes_char_cons in H. apply orb_false_iff in H. destruct H as [Hc H].
    cbn [JS.split]. rewrite Ascii.eqb_sym, Hc, (IH H). reflexivity. }
  induction items as [|x items IH]; intros Hne Hall; [congruence|].
  inversion Hall as [|? ? Hx Hitems]; subst.
  destruct items as [|y items].
  - now apply Hlast.
  - change (JS.join (String sep EmptyString) (x :: y :: items))
      with (x ++ String sep (JS.join (String sep EmptyString) (y :: items))).
    rewrite (Hone x _ Hx), IH; [reflexivity | discriminate | assumption].
Qed.

(** X3.  Whatever the names, the embedded query has the lines of the
    parametrized query, each behind four spaces. *)
Theorem embeddedQuery_lines (projectKey datasetName tableName : string)
    (selectedColumns : option (list string)) :
  JS.split LFchar (embeddedQuery projectKey datasetName tableName selectedColumns) =
  map (fun line => "    " ++ line)
      (JS.split LFchar
         (JS.replaceLimit
            (generateQuery projectKey datasetName tableName selectedColumns)
            "LIMIT @limit")).
Proof.
  unfold embeddedQuery. apply (split_join LFchar).
  - intros E. apply map_eq_nil in E. now apply split_not_empty in E.
  - apply Forall_map.
    eapply Forall_impl; [|apply split_pieces].
    intros piece H. cbv beta.
    change ("    " ++ piece) with (String " " (String " " (String " " (String " " piece)))).
    now rewrite !includes_char_cons, H.
Qed.

(** X4.  When the project, dataset, table and column names are ASCII
    without white space, the text rewritten to [LIMIT @limit] is the LIMIT
    clause that ends the query, and the embedded query is the result,
    indented. *)
Theorem embeddedQuery_plain_names (projectKey datasetName tableName : string)
    (columnNames : option (list string)) :
  plain projectKey = true -> plain datasetName = true -> plain tableName = true ->
  (forall columns,
      columnNames = Some columns -> Forall (fun column => plain column = true) columns) ->
  exists body,
    generateQuery projectKey datasetName tableName columnNames = body ++ "LIMIT 100" /\
    embeddedQuery projectKey datasetName tableName columnNames =
    JS.join JS.LF
      (map (fun line => "    " ++ line) (JS.split LFchar (body ++ "LIMIT @limit"))).
Proof.
  intros Hp Hd Ht Hcolumns.
  destruct (replaceLimit_plain_names projectKey datasetName tableName columnNames
              Hp Hd Ht Hcolumns) as (body & E & H).
  exists body. split; [exact E|]. unfold embeddedQuery. now rewrite H.
Qed.

Lemma embeddedQuery_plain_names_example :
  exists body,
    generateQuery "rj-iplanrio" "brutos_sales" "orders_2024" (Some ["id"; "limit"]) =
    body ++ "LIMIT 100" /\
    embeddedQuery "rj-iplanrio" "brutos_sales" "orders_2024" (Some ["id"; "limit"]) =
    JS.join JS.LF
      (map (fun line => "    " ++ line) (JS.split LFchar (body ++ "LIMIT @limit"))).
Proof.
  apply (embeddedQuery_plain_names "rj-iplanrio" "brutos_sales" "orders_2024"
           (Some ["id"; "limit"])); try reflexivity.
  intros columns [= <-]. repeat constructor.
Defined.

(** ** Escaping *)

Lemma replaceAllChar_app (c : ascii) (replacement a b : string) :
  replaceAllChar c replacement (a ++ b) =
  replaceAllChar c replacement a ++ replaceAllChar c replacement b.
Proof.
  induction a as [|x a IH]; [reflexivity|].
  cbn [append replaceAllChar]. rewrite IH.
  destruct (Ascii.eqb x c); [now rewrite append_assoc | reflexivity].
Qed.

(** The three passes amount to one pass that escapes each character. *)
Lemma escapeHTMLCharacters_cons (x : ascii) (s : string) :
  escapeHTMLCharacters (String x s) =
  (if Ascii.eqb x "&" then "&amp;"
   else if Ascii.eqb x "<" then "&lt;"
   else if Ascii.eqb x ">" then "&gt;"
   else String x EmptyString) ++ escapeHTMLCharacters s.
Proof.
  unfold escapeHTMLCharacters. cbn [replaceAllChar].
  destruct (Ascii.eqb x "&") eqn:Eamp.
  - now rewrite !replaceAllChar_app.
  - cbn [replaceAllChar]. destruct (Ascii.eqb x "<") eqn:Elt.
    + now rewrite !replaceAllChar_app.
    + cbn [replaceAllChar]. now destruct (Ascii.eqb x ">").
Qed.

Lemma escapeHTMLCharacters_empty : escapeHTMLCharacters EmptyString = EmptyString.
Proof. reflexivity. Qed.

Lemma escapeHTMLCharacters_app (a b : string) :
  escapeHTMLCharacters (a ++ b) = escapeHTMLCharacters a ++ escapeHTMLCharacters b.
Proof. unfold escapeHTMLCharacters. now rewrite !replaceAllChar_app. Qed.

Lemma escapeHTMLCharacters_without (c : ascii) (code : string) :
  c = "<"%char \/ c = ">"%char ->
  JS.includes (escapeHTMLCharacters code) (String c EmptyString) = false.
Proof.
  intros Hc. induction code as [|x code IH]; [reflexivity|].
  rewrite escapeHTMLCharacters_cons, includes_char_app, IH, orb_false_r.
  destruct (Ascii.eqb x "&") eqn:Eamp; [destruct Hc as [-> | ->]; reflexivity|].
  destruct (Ascii.eqb x "<") eqn:Elt; [destruct Hc as [-> | ->]; reflexivity|].
  destruct (Ascii.eqb x ">") eqn:Egt; [destruct Hc as [-> | ->]; reflexivity|].
  rewrite includes_char_cons, orb_false_r, Ascii.eqb_sym.
  destruct Hc as [-> | ->]; assumption.
Qed.

Lemma escapeHTMLCharacters_inj (a b : string) :
  escapeHTMLCharacters a = escapeHTMLCharacters b -> a = b.
Proof.
  revert b. induction a as [|x a IH]; intros [|y b] H.
  - reflexivity.
  - rewrite escapeHTMLCharacters_cons, escapeHTMLCharacters_empty in H.
    destruct (Ascii.eqb y "&"); [discriminate|].
    destruct (Ascii.eqb y "<"); [discriminate|].
    destruct (Ascii.eqb y ">"); discriminate.
  - rewrite escapeHTMLCharacters_cons, escapeHTMLCharacters_empty in H.
    destruct (Ascii.eqb x "&"); [discriminate|].
    destruct (Ascii.eqb x "<"); [discriminate|].
    destruct (Ascii.eqb x ">"); discriminate.
  - rewrite !escapeHTMLCharacters_cons in H.
    destruct (Ascii.eqb x "&") eqn:Xamp; [apply Ascii.eqb_eq in Xamp|apply Ascii.eqb_neq in Xamp];
    (destruct (Ascii.eqb x "<") eqn:Xlt; [apply Ascii.eqb_eq in Xlt|apply Ascii.eqb_neq in Xlt]);
    (destruct (Ascii.eqb x ">") eqn:Xgt; [apply Ascii.eqb_eq in Xgt|apply Ascii.eqb_neq in Xgt]);
    (destruct (Ascii.eqb y "&") eqn:Yamp; [apply Ascii.eqb_eq in Yamp|apply Ascii.eqb_neq in Yamp]);
    (destruct (Ascii.eqb y "<") eqn:Ylt; [apply Ascii.eqb_eq in Ylt|apply Ascii.eqb_neq in Ylt]);
    (destruct (Ascii.eqb y ">") eqn:Ygt; [apply Ascii.eqb_eq in Ygt|apply Ascii.eqb_neq in Ygt]);
    cbn [append] in H; inversion H; subst; try congruence;
    f_equal; now apply IH.
Qed.

(** X5.  The escaped text has no ['<'] and no ['>'], so in the plain-text
    preview the only markup is the fixed wrapper around it. *)
Theorem escaped_code_has_no_markup (code : string) :
  JS.includes (escapeHTMLCharacters code) "<" = false /\
  JS.includes (escapeHTMLCharacters code) ">" = false /\
  exists body,
    createPlainTextHTML code =
    ("<pre style=" ++ JS.DQ ++ fallbackStyle ++ JS.DQ ++ "><code>") ++ body ++
    "</code></pre>" /\
    JS.includes body "<" = false /\ JS.includes body ">" = false.
Proof.
  pose proof (escapeHTMLCharacters_without "<" code (or_introl eq_refl)) as Hlt.
  pose proof (escapeHTMLCharacters_without ">" code (or_intror eq_refl)) as Hgt.
  split; [exact Hlt|]. split; [exact Hgt|].
  exists (escapeHTMLCharacters code). split; [|now split].
  unfold createPlainTextHTML. flatten_append; reflexivity.
Qed.

(** X6.  Escaping loses nothing: two texts with the same escaped form are
    the same text. *)
Theorem escapeHTMLCharacters_injective (a b : string) :
  escapeHTMLCharacters a = escapeHTMLCharacters b <-> a = b.
Proof.
  split; [apply escapeHTMLCharacters_inj | now intros ->].
Qed.

(** X7.  Escaping works piece by piece, and leaves a text without ['&'],
    ['<'] and ['>'] as it is. *)
Theorem escapeHTMLCharacters_pieces (a b : string) :
  escapeHTMLCharacters (a ++ b) = escapeHTMLCharacters a ++ escapeHTMLCharacters b /\
  (JS.includes a "&" = false /\ JS.includes a "<" = false /\
   JS.includes a ">" = false ->
   escapeHTMLCharacters a = a).
Proof.
  split; [apply escapeHTMLCharacters_app|].
  induction a as [|x a IH]; [reflexivity|].
  rewrite !includes_char_cons, !orb_false_iff.
  intros [[Eamp Hamp] [[Elt Hlt] [Egt Hgt]]].
  rewrite escapeHTMLCharacters_cons, IH by auto.
  rewrite Ascii.eqb_sym in Eamp, Elt, Egt. now rewrite Eamp, Elt, Egt.
Qed.

(** ** The dataset list, in order *)

Section DatasetList.

Variable getTime : string -> number.

Lemma dataset_views_exact (projectKey : string) (datasets : JSObject DatasetRaw.t) :
  distinct_keys datasets ->
  forall (post pre : JSObject DatasetRaw.t) (allDatasets : list Dataset.t),
    datasets = (pre ++ post)%list ->
    forEach (Object_keys post)
      (fun datasetName allDatasets =>
         dataset <- ownValue datasets datasetName ;;
         Normal (allDatasets ++ [viewOf getTime projectKey datasetName dataset])%list)
      allDatasets =
    Normal (allDatasets ++
            map (fun dataset => viewOf getTime projectKey (fst dataset) (snd dataset))
                post)%list.
Proof.
  intros Hnd. induction post as [|[n raw] post IH]; intros pre allDatasets E.
  - simpl. now rewrite app_nil_r.
  - assert (Hown : own datasets n = Some raw).
    { apply own_entry; [exact Hnd|]. rewrite E. apply in_or_app. right. now left. }
    simpl. unfold ownValue. rewrite Hown. simpl.
    rewrite (IH (pre ++ [(n, raw)])%list).
    + now rewrite <- app_assoc.
    + now rewrite <- app_assoc.
Qed.

Lemma project_views_exact (catalog : CatalogData) :
  well_formed catalog ->
  forall (post pre : CatalogData) (allDatasets : list Dataset.t),
    catalog = (pre ++ post)%list ->
    forEach (Object_keys post)
      (fun projectKey allDatasets =>
         datasets <- ownValue catalog projectKey ;;
         forEach (Object_keys datasets)
           (fun datasetName allDatasets =>
              dataset <- ownValue datasets datasetName ;;
              Normal (allDatasets ++ [viewOf getTime projectKey datasetName dataset])%list)
           allDatasets)
      allDatasets =
    Normal (allDatasets ++ allViews getTime post)%list.
Proof.
  intros [Hnd Hall]. induction post as [|[p ds] post IH]; intros pre allDatasets E.
  - simpl. now rewrite app_nil_r.
  - assert (Hin : In (p, ds) catalog)
      by (rewrite E; apply in_or_app; right; now left).
    assert (Hown : own catalog p = Some ds) by now apply own_entry.
    assert (Hds : distinct_keys ds)
      by exact (proj1 (Forall_forall _ _) Hall (p, ds) Hin).
    simpl. unfold ownValue at 1. rewrite Hown. simpl.
    rewrite (dataset_views_exact p ds Hds ds [] allDatasets eq_refl). simpl.
    rewrite (IH (pre ++ [(p, ds)])%list).
    + now rewrite <- app_assoc.
    + now rewrite <- app_assoc.
Qed.

Lemma getDatasets_exact (catalog : CatalogData) :
  well_formed catalog ->
  getDatasets (Normal catalog) getTime = Normal (allViews getTime catalog).
Proof.
  intros Hwf. exact (project_views_exact catalog Hwf catalog [] [] eq_refl).
Qed.

End DatasetList.

Lemma total_from (datasets : list Dataset.t) (start : nat) :
  fold_left (fun sum dataset => sum + Dataset.tableCount dataset) datasets start =
  start + list_sum (map Dataset.tableCount datasets).
Proof.
  revert start. induction datasets as [|d datasets IH]; intros start; simpl.
  - lia.
  - rewrite IH. lia.
Qed.

Lemma getTotalTableCount_sum (datasets : list Dataset.t) :
  getTotalTableCount datasets = list_sum (map Dataset.tableCount datasets).
Proof. unfold getTotalTableCount. now rewrite total_from. Qed.

Lemma list_sum_permutation (a b : list nat) :
  Permutation a b -> list_sum a = list_sum b.
Proof. induction 1; simpl; lia. Qed.

Lemma allViews_length (getTime : string -> number) (catalog : CatalogData) :
  List.length (allViews getTime catalog) = datasetTotal catalog.
Proof.
  unfold allViews, datasetTotal.
  induction catalog as [|[p ds] catalog IH]; simpl; [reflexivity|].
  now rewrite length_app, length_map, IH.
Qed.

Lemma allViews_tables (getTime : string -> number) (catalog : CatalogData) :
  list_sum (map Dataset.tableCount (allViews getTime catalog)) = tableTotal catalog.
Proof.
  unfold allViews, tableTotal.
  induction catalog as [|[p ds] catalog IH]; simpl; [reflexivity|].
  rewrite map_app, list_sum_app, IH, map_map. reflexivity.
Qed.

(** X8.  On a well-formed catalog [getDatasets] returns one view per
    dataset, project by project in the order of the project keys and,
    within a project, in the order of the dataset names. *)
Theorem getDatasets_in_catalog_order (getTime : string -> number)
    (catalog : CatalogData) :
  well_formed catalog ->
  getDatasets (Normal catalog) getTime = Normal (allViews getTime catalog).
Proof. apply getDatasets_exact. Qed.

Lemma getDatasets_in_catalog_order_example :
  getDatasets
    (Normal [("p1", [("sales", {| DatasetRaw.description := "Sales";
                                  DatasetRaw.tables := [] |});
                     ("taxes", {| DatasetRaw.description := "Taxes";
                                  DatasetRaw.tables := [] |})]);
             ("p2", [("sales", {| DatasetRaw.description := "Other sales";
                                  DatasetRaw.tables := [] |})])])
    (fun _ => NaN) =
  Normal (allViews (fun _ => NaN)
            [("p1", [("sales", {| DatasetRaw.description := "Sales";
                                  DatasetRaw.tables := [] |});
                     ("taxes", {| DatasetRaw.description := "Taxes";
                                  DatasetRaw.tables := [] |})]);
             ("p2", [("sales", {| DatasetRaw.description := "Other sales";
                                  DatasetRaw.tables := [] |})])]).
Proof.
  apply getDatasets_in_catalog_order. split.
  - repeat constructor; simpl; intuition discriminate.
  - repeat constructor; simpl; intuition discriminate.
Defined.

(** X9.  The total of [getTotalTableCount] is the sum of the table counts:
    it adds up over a concatenation and does not depend on the order of
    the datasets. *)
Theorem getTotalTableCount_order_free (a b : list Dataset.t) :
  getTotalTableCount (a ++ b) = getTotalTableCount a + getTotalTableCount b /\
  (Permutation a b -> getTotalTableCount a = getTotalTableCount b) /\
  getTotalTableCount (rev a) = getTotalTableCount a.
Proof.
  rewrite !getTotalTableCount_sum. repeat split.
  - now rewrite map_app, list_sum_app.
  - intros H. apply list_sum_permutation. now apply Permutation_map.
  - apply list_sum_permutation, Permutation_map, Permutation_sym, Permutation_rev.
Qed.

(** X10.  On a well-formed catalog the home page and the datasets page
    show the same two numbers: how many datasets the catalog has over all
    its projects, and how many tables. *)
Theorem page_stats_count_the_catalog (getTime : string -> number)
    (catalog : CatalogData) :
  well_formed catalog ->
  getHomePageStats (Normal catalog) getTime =
  Normal [{| StatItem.value := datasetTotal catalog;
             StatItem.label := "Conjuntos de Dados" |};
          {| StatItem.value := tableTotal catalog; StatItem.label := "Tabelas" |}] /\
  getDatasetsPageStats (Normal catalog) getTime =
  Normal [{| StatItem.value := datasetTotal catalog; StatItem.label := "Datasets" |};
          {| StatItem.value := tableTotal catalog;
             StatItem.label := "Total de Tabelas" |}].
Proof.
  intros Hwf. unfold getHomePageStats, getDatasetsPageStats.
  rewrite (getDatasets_exact getTime catalog Hwf). cbn [bind].
  now rewrite getTotalTableCount_sum, allViews_length, allViews_tables.
Qed.

Lemma page_stats_count_the_catalog_example :
  getHomePageStats
    (Normal [("p1", [("sales",
                      {| DatasetRaw.description := "Sales";
                         DatasetRaw.tables :=
                           [{| Table.name := "orders"; Table.created_at := "2024-01-01";
                               Table.schema := [] |};
                            {| Table.name := "items"; Table.created_at := "2024-02-01";
                               Table.schema := [] |}] |})])])
    (fun _ => NaN) =
  Normal [{| StatItem.value := 1; StatItem.label := "Conjuntos de Dados" |};
          {| StatItem.value := 2; StatItem.label := "Tabelas" |}].
Proof.
  refine (proj1 (page_stats_count_the_catalog (fun _ => NaN) _ _)). split.
  - repeat constructor; simpl; intuition discriminate.
  - repeat constructor; simpl; intuition discriminate.
Defined.

(** ** Every outcome of a lookup *)

(** The loop either passes over every project, finding [undefined] in each,
    and throws the not-found error, or returns at a project where the
    property is truthy. *)
Lemma findDataset_cases (catalog : CatalogData) (datasetName : string)
    (projectKeys : list string) :
  (forall k, In k projectKeys -> In k (Object_keys catalog)) ->
  (findDataset catalog datasetName projectKeys =
     Throw (Error (notFoundMessage datasetName)) /\
   forall k, In k projectKeys ->
     exists datasets, own catalog k = Some datasets /\
                      Get datasets datasetName = Undefined) \/
  exists projectKey datasets,
    In projectKey projectKeys /\ own catalog projectKey = Some datasets /\
    truthy (Get datasets datasetName) = true /\
    findDataset catalog datasetName projectKeys =
    Normal {| DatasetFull.name := datasetName;
              DatasetFull.project := projectKey;
              DatasetFull.description := property_description (Get datasets datasetName);
              DatasetFull.tables := property_tables (Get datasets datasetName) |}.
Proof.
  induction projectKeys as [|p projectKeys IH]; intros Hkeys.
  - left. split; [reflexivity | intros k []].
  - destruct (ownValue_keys catalog p (Hkeys p (or_introl eq_refl)))
      as (ds & Hown & Hval).
    cbn [findDataset]. rewrite Hval. cbn [bind].
    destruct (truthy (Get ds datasetName)) eqn:Htruthy.
    + right. exists p, ds. repeat split; auto. now left.
    + destruct (IH (fun k Hk => Hkeys k (or_intror Hk)))
        as [[E Hall] | (q & dsq & Hq & Hownq & Htq & E)].
      * left. split; [exact E|]. intros k [<- | Hk]; [|now apply Hall].
        exists ds. split; [exact Hown|].
        destruct (Get ds datasetName); try discriminate; reflexivity.
      * right. exists q, dsq. repeat split; auto. now right.
Qed.

(** X11.  On a loaded catalog [getDatasetByName] has two outcomes only: an
    object that carries the requested name and a project key of the
    catalog, with its description and its tables both present or both
    undefined; or the not-found [Error], and then no project has a dataset
    of that name.  It throws nothing else. *)
Theorem getDatasetByName_outcomes (catalog : CatalogData) (datasetName : string) :
  (exists dataset,
      getDatasetByName (Normal catalog) datasetName = Normal dataset /\
      DatasetFull.name dataset = datasetName /\
      In (DatasetFull.project dataset) (Object_keys catalog) /\
      (DatasetFull.description dataset = None <->
       DatasetFull.tables dataset = None)) \/
  (getDatasetByName (Normal catalog) datasetName =
     Throw (Error (notFoundMessage datasetName)) /\
   forall projectKey datasets,
     own catalog projectKey = Some datasets -> own datasets datasetName = None).
Proof.
  unfold getDatasetByName, getProjectKeys. cbn [bind].
  destruct (findDataset_cases catalog datasetName (Object_keys catalog) (fun _ H => H))
    as [[E Hall] | (p & ds & Hp & Hown & Ht & E)].
  - right. split; [exact E|]. intros p ds Hown.
    destruct (Hall p) as (ds' & Hown' & Hget); [apply own_keys; now exists ds|].
    rewrite Hown in Hown'. injection Hown' as <-.
    unfold Get in Hget. destruct (own ds datasetName); [discriminate | reflexivity].
  - left. eexists. split; [exact E|]. cbn. repeat split; auto.
    + destruct (Get ds datasetName); [discriminate | reflexivity | reflexivity].
    + destruct (Get ds datasetName); [discriminate | reflexivity | reflexivity].
Qed.

(** X12.  Every name that [getDatasetNames] lists is found by
    [getDatasetByName]: the lookup returns an object of that name under a
    project key of the catalog, and does not throw. *)
Theorem listed_names_are_found (catalog : CatalogData) (names : list string)
    (datasetName : string) :
  getDatasetNames (Normal catalog) = Normal names ->
  In datasetName names ->
  exists dataset,
    getDatasetByName (Normal catalog) datasetName = Normal dataset /\
    DatasetFull.name dataset = datasetName /\
    In (DatasetFull.project dataset) (Object_keys catalog).
Proof.
  intros Hnames Hin.
  destruct (project_names_loop catalog (Object_keys catalog) [] (fun _ H => H))
    as (names' & E & _ & Hmem).
  unfold getDatasetNames, getProjectKeys in Hnames. cbn [bind] in Hnames.
  rewrite E in Hnames. cbn [bind] in Hnames. injection Hnames as <-.
  apply Hmem in Hin. destruct Hin as [[] | (p & ds & Hp & Hown & Hn)].
  apply own_keys in Hn. destruct Hn as [raw Hraw].
  unfold getDatasetByName, getProjectKeys. cbn [bind].
  destruct (findDataset_cases catalog datasetName (Object_keys catalog) (fun _ H => H))
    as [[_ Hall] | (q & dsq & Hq & Hownq & _ & Efound)].
  - destruct (Hall p Hp) as (ds' & Hown' & Hget).
    rewrite Hown in Hown'. injection Hown' as <-.
    rewrite (Get_own ds datasetName raw Hraw) in Hget. discriminate.
  - eexists. split; [exact Efound|]. cbn. auto.
Qed.

Lemma listed_names_are_found_example :
  exists dataset,
    getDatasetByName
      (Normal [("p1", [("sales", {| DatasetRaw.description := "Sales";
                                    DatasetRaw.tables := [] |})])])
      "sales" = Normal dataset /\
    DatasetFull.name dataset = "sales" /\
    In (DatasetFull.project dataset)
       (Object_keys [("p1", [("sales", {| DatasetRaw.description := "Sales";
                                          DatasetRaw.tables := [] |})])]).
Proof.
  apply (listed_names_are_found
           [("p1", [("sales", {| DatasetRaw.description := "Sales";
                                 DatasetRaw.tables := [] |})])]
           ["sales"] "sales").
  - reflexivity.
  - simpl. auto.
Defined.

(** The paths built for the names [datasetNames], when each is found. *)
Lemma static_paths_loop (catalog : CatalogData) (datasetNames : list string) :
  (forall n, In n datasetNames ->
     exists dataset,
       getDatasetByName (Normal catalog) n = Normal dataset /\
       DatasetFull.name dataset = n /\
       In (DatasetFull.project dataset) (Object_keys catalog)) ->
  exists paths,
    mapM (fun datasetName =>
            dataset <- getDatasetByName (Normal catalog) datasetName ;;
            Normal {| StaticPath.params := {| StaticPathParams.dataset := datasetName |};
                      StaticPath.props := {| StaticPathProps.dataset := dataset |} |})
         datasetNames = Normal paths /\
    map (fun path => StaticPathParams.dataset (StaticPath.params path)) paths =
    datasetNames /\
    Forall (fun path =>
              DatasetFull.name (StaticPathProps.dataset (StaticPath.props path)) =
              StaticPathParams.dataset (StaticPath.params path) /\
              In (DatasetFull.project (StaticPathProps.dataset (StaticPath.props path)))
                 (Object_keys catalog))
           paths.
Proof.
  induction datasetNames as [|n datasetNames IH]; intros Hfound.
  - exists []. repeat split. constructor.
  - destruct (Hfound n (or_introl eq_refl)) as (dataset & E & Hname & Hproject).
    destruct (IH (fun m Hm => Hfound m (or_intror Hm))) as (paths & Epaths & Hmap & Hall).
    eexists. cbn [mapM]. rewrite E. cbn [bind]. rewrite Epaths. cbn [bind].
    split; [reflexivity|]. split.
    + cbn. now rewrite Hmap.
    + constructor; [cbn; auto | exact Hall].
Qed.

(** X13.  On a loaded catalog [getStaticPaths] does not fail: it yields one
    path per name of [getDatasetNames], in that order, and the dataset of
    each path has the name of the path and a project key of the catalog.
    When the catalog cannot be loaded it fails with the exception of the
    load. *)
Theorem getStaticPaths_one_per_name (catalog : CatalogData) :
  (exists names paths,
      getDatasetNames (Normal catalog) = Normal names /\
      getStaticPaths (Normal catalog) = Normal paths /\
      NoDup names /\
      map (fun path => StaticPathParams.dataset (StaticPath.params path)) paths = names /\
      Forall (fun path =>
                DatasetFull.name (StaticPathProps.dataset (StaticPath.props path)) =
                StaticPathParams.dataset (StaticPath.params path) /\
                In (DatasetFull.project (StaticPathProps.dataset (StaticPath.props path)))
                   (Object_keys catalog))
             paths) /\
  forall e, getStaticPaths (Throw e) = Throw e.
Proof.
  split; [|reflexivity].
  destruct (project_names_loop catalog (Object_keys catalog) [] (fun _ H => H))
    as (names & E & Hnd & Hmem).
  assert (Enames : getDatasetNames (Normal catalog) = Normal names).
  { unfold getDatasetNames, getProjectKeys. cbn [bind]. rewrite E. reflexivity. }
  assert (Hfound : forall n, In n names ->
             exists dataset,
               getDatasetByName (Normal catalog) n = Normal dataset /\
               DatasetFull.name dataset = n /\
               In (DatasetFull.project dataset) (Object_keys catalog)).
  { intros n Hn. apply Hmem in Hn. destruct Hn as [[] | (p & ds & Hp & Hown & Hn)].
    apply own_keys in Hn. destruct Hn as [raw Hraw].
    unfold getDatasetByName, getProjectKeys. cbn [bind].
    destruct (findDataset_cases catalog n (Object_keys catalog) (fun _ H => H))
      as [[_ Hall] | (q & dsq & Hq & Hownq & _ & Efound)].
    - destruct (Hall p Hp) as (ds' & Hown' & Hget).
      rewrite Hown in Hown'. injection Hown' as <-.
      rewrite (Get_own ds n raw Hraw) in Hget. discriminate.
    - eexists. split; [exact Efound|]. cbn. auto. }
  destruct (static_paths_loop catalog names Hfound) as (paths & Epaths & Hmap & Hall).
  exists names, paths. unfold getStaticPaths. rewrite Enames. cbn [bind].
  repeat split; auto. apply Hnd. constructor.
Qed.

(** ** The most recent update *)

Lemma Math_max_from_nan (values : list number) :
  fold_left (fun highest value =>
               match highest, value with
               | NaN, _ | _, NaN => NaN
               | NegInfinity, x | x, NegInfinity => x
               | Finite a, Finite b => Finite (Z.max a b)
               end)
            values NaN = NaN.
Proof. induction values as [|v values IH]; [reflexivity | exact IH]. Qed.

Lemma Math_max_nan (values : list number) :
  In NaN values -> Math_max values = NaN.
Proof.
  unfold Math_max. generalize NegInfinity as start.
  induction values as [|v values IH]; intros start H; [destruct H|].
  destruct H as [-> | H].
  - cbn [fold_left]. destruct start; apply Math_max_from_nan.
  - cbn [fold_left]. now apply IH.
Qed.

Lemma Math_max_from_finite (times : list Z) (start : Z) :
  exists m,
    fold_left (fun highest value =>
                 match highest, value with
                 | NaN, _ | _, NaN => NaN
                 | NegInfinity, x | x, NegInfinity => x
                 | Finite a, Finite b => Finite (Z.max a b)
                 end)
              (map Finite times) (Finite start) = Finite m /\
    (m = start \/ In m times) /\ (start <= m)%Z /\
    forall x, In x times -> (x <= m)%Z.
Proof.
  revert start. induction times as [|t times IH]; intros start.
  - exists start. cbn. repeat split; auto; try lia; intros x [].
  - destruct (IH (Z.max start t)) as (m & E & Hm & Hle & Hall).
    exists m. cbn [map fold_left]. split; [exact E|]. repeat split.
    + destruct Hm as [-> | Hm]; [|right; now right].
      destruct (Z.max_spec start t) as [[_ ->] | [_ ->]]; [right; now left | now left].
    + lia.
    + intros x [<- | Hx]; [lia | now apply Hall].
Qed.

Lemma Math_max_finite (times : list Z) :
  times <> [] ->
  exists m, Math_max (map Finite times) = Finite m /\ In m times /\
            forall x, In x times -> (x <= m)%Z.
Proof.
  destruct times as [|t times]; [congruence | intros _].
  destruct (Math_max_from_finite times t) as (m & E & Hm & Hle & Hall).
  exists m. unfold Math_max. cbn [map fold_left]. split; [exact E|]. split.
  - destruct Hm as [-> | Hm]; [now left | now right].
  - intros x [<- | Hx]; [exact Hle | now apply Hall].
Qed.

(** X14.  The view of a dataset counts its tables, and its [lastUpdated]
    is the latest of their creation times when the dataset has tables and
    all their dates are valid; one invalid date makes it NaN. *)
Theorem lastUpdated_is_latest (getTime : string -> number) (catalog : CatalogData)
    (projectKey datasetName : string) (datasets : JSObject DatasetRaw.t)
    (raw : DatasetRaw.t) :
  own catalog projectKey = Some datasets ->
  own datasets datasetName = Some raw ->
  exists views view,
    getDatasets (Normal catalog) getTime = Normal views /\
    In view views /\
    Dataset.name view = datasetName /\ Dataset.project view = projectKey /\
    Dataset.tableCount view = List.length (DatasetRaw.tables raw) /\
    ((exists table,
         In table (DatasetRaw.tables raw) /\ getTime (Table.created_at table) = NaN) ->
     Dataset.lastUpdated view = NaN) /\
    (forall times,
        map (fun table => getTime (Table.created_at table)) (DatasetRaw.tables raw) =
        map Finite times ->
        times <> [] ->
        exists latest,
          Dataset.lastUpdated view = Finite latest /\ In latest times /\
          forall time, In time times -> (time <= latest)%Z).
Proof.
  intros Hds Hraw.
  destruct (getDatasets_views getTime catalog) as (views & E & Hin).
  exists views, (viewOf getTime projectKey datasetName raw).
  split; [exact E|]. split.
  { apply Hin. now exists projectKey, datasets, datasetName, raw. }
  cbn. repeat split.
  - intros (table & Htable & Hnan). apply Math_max_nan.
    rewrite <- Hnan. now apply (in_map (fun t => getTime (Table.created_at t))).
  - intros times -> Hne. now apply Math_max_finite.
Qed.

Lemma lastUpdated_is_latest_example :
  exists views view,
    getDatasets
      (Normal [("p1", [("sales",
                        {| DatasetRaw.description := "Sales";
                           DatasetRaw.tables :=
                             [{| Table.name := "orders";
                                 Table.created_at := "2024-01-01"; Table.schema := [] |}] |})])])
      (fun _ => Finite 1704067200000) = Normal views /\
    In view views /\
    Dataset.name view = "sales" /\
    Dataset.lastUpdated view = Finite 1704067200000.
Proof.
  destruct (lastUpdated_is_latest (fun _ => Finite 1704067200000)
              [("p1", [("sales",
                        {| DatasetRaw.description := "Sales";
                           DatasetRaw.tables :=
                             [{| Table.name := "orders";
                                 Table.created_at := "2024-01-01"; Table.schema := [] |}] |})])]
              "p1" "sales"
              [("sales",
                {| DatasetRaw.description := "Sales";
                   DatasetRaw.tables :=
                     [{| Table.name := "orders";
                         Table.created_at := "2024-01-01"; Table.schema := [] |}] |})]
              {| DatasetRaw.description := "Sales";
                 DatasetRaw.tables :=
                   [{| Table.name := "orders";
                       Table.created_at := "2024-01-01"; Table.schema := [] |}] |}
              eq_refl eq_refl)
    as (views & view & E & Hin & Hname & _ & _ & _ & Hlatest).
  destruct (Hlatest [1704067200000%Z] eq_refl) as (latest & Elatest & Hmem & _);
    [discriminate|].
  destruct Hmem as [<- | []].
  exists views, view. auto.
Defined.

(** ** The single-project catalog *)

(** X15.  In the single-project module every name that [getDatasetNames]
    lists is found by [getDatasetByName], with the description and the
    tables the catalog has under that name. *)
Theorem single_project_listed_names_are_found (catalog : CatalogData)
    (names : list string) (datasetName : string) :
  SingleProject.getDatasetNames (Normal catalog) = Normal names ->
  In datasetName names ->
  exists datasets raw,
    own catalog "rj-iplanrio" = Some datasets /\
    own datasets datasetName = Some raw /\
    SingleProject.getDatasetByName (Normal catalog) datasetName =
    Normal {| SingleProject.DatasetFull.name := datasetName;
              SingleProject.DatasetFull.description :=
                Some (DatasetRaw.description raw);
              SingleProject.DatasetFull.tables := Some (DatasetRaw.tables raw) |}.
Proof.
  unfold SingleProject.getDatasetNames, SingleProject.getDatasetByName. cbn [bind].
  destruct (own catalog "rj-iplanrio") as [datasets|]; [|discriminate].
  intros [= <-] Hin. apply own_keys in Hin. destruct Hin as [raw Hraw].
  exists datasets, raw. repeat split; auto.
  now rewrite (Get_own datasets datasetName raw Hraw).
Qed.

Lemma single_project_listed_names_are_found_example :
  exists datasets raw,
    own [("rj-iplanrio", [("sales", {| DatasetRaw.description := "Sales";
                                       DatasetRaw.tables := [] |})])]
        "rj-iplanrio" = Some datasets /\
    own datasets "sales" = Some raw /\
    SingleProject.getDatasetByName
      (Normal [("rj-iplanrio", [("sales", {| DatasetRaw.description := "Sales";
                                             DatasetRaw.tables := [] |})])])
      "sales" =
    Normal {| SingleProject.DatasetFull.name := "sales";
              SingleProject.DatasetFull.description :=
                Some (DatasetRaw.description raw);
              SingleProject.DatasetFull.tables := Some (DatasetRaw.tables raw) |}.
Proof.
  apply (single_project_listed_names_are_found
           [("rj-iplanrio", [("sales", {| DatasetRaw.description := "Sales";
                                          DatasetRaw.tables := [] |})])]
           ["sales"] "sales").
  - reflexivity.
  - simpl. auto.
Defined.

(** X16.  The single-project functions have no not-found error: whatever
    they throw is either what loading the catalog threw or a [TypeError].
    [getDatasets] and [getDatasetNames] throw the [TypeError] exactly when
    the loaded catalog has no ['rj-iplanrio'] project (no dataset of a
    project that is there makes [getDatasets] fail); [getDatasetByName]
    also when the name is neither a dataset of the project nor a property
    of [Object.prototype].  For a name under no project the multi-project
    [getDatasetByName] throws its not-found [Error] where the
    single-project one throws the [TypeError]. *)
Theorem single_project_outcomes (getTime : string -> number)
    (loadCatalogData : completion CatalogData) :
  (forall e,
      SingleProject.getDatasets loadCatalogData getTime = Throw e <->
      loadCatalogData = Throw e \/
      exists catalog,
        loadCatalogData = Normal catalog /\ e = TypeError /\
        own catalog "rj-iplanrio" = None) /\
  (forall e,
      SingleProject.getDatasetNames loadCatalogData = Throw e <->
      loadCatalogData = Throw e \/
      exists catalog,
        loadCatalogData = Normal catalog /\ e = TypeError /\
        own catalog "rj-iplanrio" = None) /\
  (forall datasetName e,
      SingleProject.getDatasetByName loadCatalogData datasetName = Throw e <->
      loadCatalogData = Throw e \/
      exists catalog,
        loadCatalogData = Normal catalog /\ e = TypeError /\
        (own catalog "rj-iplanrio" = None \/
         exists datasets,
           own catalog "rj-iplanrio" = Some datasets /\
           own datasets datasetName = None /\
           JS.array_includes Object_prototype_names datasetName = false)) /\
  (forall catalog datasetName,
      loadCatalogData = Normal catalog ->
      (forall projectKey datasets,
          own catalog projectKey = Some datasets -> own datasets datasetName = None) ->
      JS.array_includes Object_prototype_names datasetName = false ->
      getDatasetByName loadCatalogData datasetName =
        Throw (Error (notFoundMessage datasetName)) /\
      SingleProject.getDatasetByName loadCatalogData datasetName = Throw TypeError).
Proof.
  assert (Hname : forall datasetName e,
             SingleProject.getDatasetByName loadCatalogData datasetName = Throw e <->
             loadCatalogData = Throw e \/
             exists catalog,
               loadCatalogData = Normal catalog /\ e = TypeError /\
               (own catalog "rj-iplanrio" = None \/
                exists datasets,
                  own catalog "rj-iplanrio" = Some datasets /\
                  own datasets datasetName = None /\
                  JS.array_includes Object_prototype_names datasetName = false)).
  { intros datasetName e. unfold SingleProject.getDatasetByName.
    destruct loadCatalogData as [catalog | failure]; cbn [bind].
    - destruct (own catalog "rj-iplanrio") as [datasets|] eqn:Hproject.
      + unfold Get. destruct (own datasets datasetName) as [raw|] eqn:Hown.
        * split; [discriminate|].
          intros [H | (c & [= <-] & _ & [H | (ds & H1 & H2 & _)])]; congruence.
        * destruct (JS.array_includes Object_prototype_names datasetName) eqn:Hproto.
          -- split; [discriminate|].
             intros [H | (c & [= <-] & _ & [H | (ds & _ & _ & H)])]; congruence.
          -- split.
             ++ intros [= <-]. right. exists catalog.
                split; [reflexivity|]. split; [reflexivity|].
                right. now exists datasets.
             ++ intros [H | (c & _ & -> & _)]; [discriminate | reflexivity].
      + split.
        * intros [= <-]. right. exists catalog. auto.
        * intros [H | (c & _ & -> & _)]; [discriminate | reflexivity].
    - split.
      + intros [= <-]. now left.
      + intros [[= <-] | (c & H & _)]; [reflexivity | discriminate]. }
  split; [|split; [|split]].
  - intros e. unfold SingleProject.getDatasets.
    destruct loadCatalogData as [catalog | failure]; cbn [bind].
    + destruct (own catalog "rj-iplanrio") as [datasets|] eqn:Hproject.
      * destruct (single_project_views getTime datasets (Object_keys datasets)
                    (fun _ H => H)) as (views & E & _).
        rewrite E. split; [discriminate|].
        intros [H | (c & [= <-] & _ & H)]; congruence.
      * split.
        -- intros [= <-]. right. exists catalog. auto.
        -- intros [H | (c & _ & -> & _)]; [discriminate | reflexivity].
    + split.
      * intros [= <-]. now left.
      * intros [[= <-] | (c & H & _)]; [reflexivity | discriminate].
  - intros e. unfold SingleProject.getDatasetNames.
    destruct loadCatalogData as [catalog | failure]; cbn [bind].
    + destruct (own catalog "rj-iplanrio") as [datasets|] eqn:Hproject.
      * split; [discriminate|].
        intros [H | (c & [= <-] & _ & H)]; congruence.
      * split.
        -- intros [= <-]. right. exists catalog. auto.
        -- intros [H | (c & _ & -> & _)]; [discriminate | reflexivity].
    + split.
      * intros [= <-]. now left.
      * intros [[= <-] | (c & H & _)]; [reflexivity | discriminate].
  - exact Hname.
  - intros catalog datasetName -> Hmissing Hproto. split.
    + now apply getDatasetByName_missing.
    + apply Hname. right. exists catalog.
      split; [reflexivity|]. split; [reflexivity|].
      destruct (own catalog "rj-iplanrio") as [datasets|] eqn:Hproject; [|now left].
      right. exists datasets. repeat split; auto.
      now apply (Hmissing "rj-iplanrio").
Qed.

Lemma add_distinct_names (datasetNames allNames : list string) :
  NoDup (allNames ++ datasetNames)%list ->
  forEach datasetNames
    (fun datasetName allNames => Normal (Set_add allNames datasetName)) allNames =
  Normal (allNames ++ datasetNames)%list.
Proof.
  revert allNames. induction datasetNames as [|n datasetNames IH]; intros allNames Hnd.
  - simpl. now rewrite app_nil_r.
  - assert (Hn : ~ In n allNames).
    { intros Hn. apply NoDup_remove_2 in Hnd. apply Hnd, in_or_app. now left. }
    cbn [forEach bind].
    replace (Set_add allNames n) with (allNames ++ [n])%list
      by (unfold Set_add; now rewrite (proj2 (array_includes_not_In allNames n) Hn)).
    rewrite IH; rewrite <- app_assoc; [reflexivity | exact Hnd].
Qed.

Lemma single_project_views_exact (getTime : string -> number)
    (datasets : JSObject DatasetRaw.t) :
  distinct_keys datasets ->
  forall post pre : JSObject DatasetRaw.t,
    datasets = (pre ++ post)%list ->
    mapM (fun datasetName =>
            dataset <- ownValue datasets datasetName ;;
            Normal {| SingleProject.Dataset.name := datasetName;
                      SingleProject.Dataset.description := DatasetRaw.description dataset;
                      SingleProject.Dataset.tableCount :=
                        List.length (DatasetRaw.tables dataset);
                      SingleProject.Dataset.lastUpdated :=
                        Math_max (map (fun table => getTime (Table.created_at table))
                                      (DatasetRaw.tables dataset)) |})
         (Object_keys post) =
    Normal (map (fun dataset =>
                   {| SingleProject.Dataset.name := fst dataset;
                      SingleProject.Dataset.description :=
                        DatasetRaw.description (snd dataset);
                      SingleProject.Dataset.tableCount :=
                        List.length (DatasetRaw.tables (snd dataset));
                      SingleProject.Dataset.lastUpdated :=
                        Math_max (map (fun table => getTime (Table.created_at table))
                                      (DatasetRaw.tables (snd dataset))) |})
                post).
Proof.
  intros Hnd. induction post as [|[n raw] post IH]; intros pre E; [reflexivity|].
  assert (Hown : own datasets n = Some raw).
  { apply own_entry; [exact Hnd|]. rewrite E. apply in_or_app. right. now left. }
  cbn [Object_keys map mapM fst]. unfold ownValue at 1. rewrite Hown. cbn [bind].
  fold (Object_keys post). rewrite (IH (pre ++ [(n, raw)])%list).
  - reflexivity.
  - now rewrite <- app_assoc.
Qed.

(** X17.  On a catalog whose only project is ['rj-iplanrio'], with
    distinct dataset names, the multi-project module lists the same names
    as the single-project one, and its views are the single-project views,
    tagged with that project. *)
Theorem single_project_catalog_agrees (getTime : string -> number)
    (datasets : JSObject DatasetRaw.t) :
  distinct_keys datasets ->
  getDatasetNames (Normal [("rj-iplanrio", datasets)]) =
  SingleProject.getDatasetNames (Normal [("rj-iplanrio", datasets)]) /\
  exists views,
    getDatasets (Normal [("rj-iplanrio", datasets)]) getTime = Normal views /\
    Forall (fun view => Dataset.project view = "rj-iplanrio") views /\
    SingleProject.getDatasets (Normal [("rj-iplanrio", datasets)]) getTime =
    Normal (map (fun view =>
                   {| SingleProject.Dataset.name := Dataset.name view;
                      SingleProject.Dataset.description := Dataset.description view;
                      SingleProject.Dataset.tableCount := Dataset.tableCount view;
                      SingleProject.Dataset.lastUpdated := Dataset.lastUpdated view |})
                views).
Proof.
  intros Hnd. split.
  - unfold getDatasetNames, getProjectKeys, SingleProject.getDatasetNames.
    cbn [bind Object_keys map fst forEach own String.eqb Ascii.eqb Bool.eqb].
    unfold ownValue. cbn [own]. rewrite String.eqb_refl. cbn [bind].
    fold (Object_keys datasets).
    now rewrite (add_distinct_names (Object_keys datasets) [] Hnd).
  - exists (allViews getTime [("rj-iplanrio", datasets)]). split; [|split].
    + apply getDatasets_exact. split.
      * repeat constructor. intros [].
      * now repeat constructor.
    + unfold allViews. cbn [flat_map fst snd]. rewrite app_nil_r.
      apply Forall_map, Forall_forall. reflexivity.
    + unfold SingleProject.getDatasets. cbn [bind own]. rewrite String.eqb_refl.
      rewrite (single_project_views_exact getTime datasets Hnd datasets [] eq_refl).
      unfold allViews. cbn [flat_map fst snd]. rewrite app_nil_r, map_map.
      reflexivity.
Qed.

Lemma single_project_catalog_agrees_example :
  getDatasetNames
    (Normal [("rj-iplanrio", [("sales", {| DatasetRaw.description := "Sales";
                                           DatasetRaw.tables := [] |})])]) =
  SingleProject.getDatasetNames
    (Normal [("rj-iplanrio", [("sales", {| DatasetRaw.description := "Sales";
                                           DatasetRaw.tables := [] |})])]).
Proof.
  refine (proj1 (single_project_catalog_agrees (fun _ => NaN)
                   [("sales", {| DatasetRaw.description := "Sales";
                                 DatasetRaw.tables := [] |})] _)).
  repeat constructor. intros [].
Defined.

(** ** Rendering and column totals *)

Lemma columns_from (tables : list Table.t) (start : nat) :
  fold_left (fun sum table => sum + List.length (Object_keys (Table.schema table)))
            tables start =
  start + list_sum (map (fun table => List.length (Object_keys (Table.schema table)))
                        tables).
Proof.
  revert start. induction tables as [|t tables IH]; intros start; simpl.
  - lia.
  - rewrite IH. lia.
Qed.

Lemma formatSchema_length (schema : JSObject ColumnInfo.t) :
  List.length (formatSchema schema) = List.length (Object_keys schema).
Proof. unfold formatSchema, Object_entries, Object_keys. now rewrite !length_map. Qed.

Lemma getTotalColumns_rendered (toLocaleString : string -> string)
    (tables : list Table.t) :
  getTotalColumns tables =
  list_sum (map TableRenderData.columnCount
                (prepareDatasetTablesForRender toLocaleString tables)).
Proof.
  unfold prepareDatasetTablesForRender, getTotalColumns. rewrite columns_from.
  rewrite map_map. cbn [plus]. f_equal. apply map_ext. intros table.
  cbn. now rewrite formatSchema_length.
Qed.

(** X18.  The tables are rendered in their order, under their names; the
    column count shown for a table is the number of its formatted schema
    entries; and the total of [getTotalColumns] is the sum of the counts
    shown. *)
Theorem rendered_tables_count_columns (toLocaleString : string -> string)
    (tables : list Table.t) :
  map TableRenderData.name (prepareDatasetTablesForRender toLocaleString tables) =
  map Table.name tables /\
  Forall (fun rendered =>
            TableRenderData.columnCount rendered =
            List.length (TableRenderData.schemaEntries rendered))
         (prepareDatasetTablesForRender toLocaleString tables) /\
  getTotalColumns tables =
  list_sum (map TableRenderData.columnCount
                (prepareDatasetTablesForRender toLocaleString tables)) /\
  getTotalColumns tables =
  List.length (flat_map TableRenderData.schemaEntries
                        (prepareDatasetTablesForRender toLocaleString tables)).
Proof.
  split; [|split; [|split]].
  - unfold prepareDatasetTablesForRender. rewrite map_map. reflexivity.
  - unfold prepareDatasetTablesForRender. apply Forall_map, Forall_forall. reflexivity.
  - apply getTotalColumns_rendered.
  - rewrite (getTotalColumns_rendered toLocaleString).
    unfold prepareDatasetTablesForRender.
    induction tables as [|t tables IH]; [reflexivity|].
    cbn [map flat_map list_sum]. now rewrite length_app, <- IH.
Qed.

(** X19.  The statistics of a dataset page: the number of tables, labelled
    in the singular exactly when there is one table, and the number of
    columns, which is the sum of the column counts of the rendered
    tables. *)
Theorem dataset_page_stats (toLocaleString : string -> string)
    (tables : list Table.t) :
  exists tableStat columnStat,
    getDatasetPageStats tables = [tableStat; columnStat] /\
    StatItem.value tableStat = List.length tables /\
    (StatItem.label tableStat = "Tabela" <-> List.length tables = 1) /\
    (StatItem.label tableStat = "Tabelas" <-> List.length tables <> 1) /\
    StatItem.value columnStat =
    list_sum (map TableRenderData.columnCount
                  (prepareDatasetTablesForRender toLocaleString tables)).
Proof.
  eexists. eexists. split; [reflexivity|]. cbn [StatItem.value StatItem.label].
  split; [reflexivity|].
  pose proof (getTotalColumns_rendered toLocaleString tables) as Hcolumns.
  destruct (Nat.eqb_spec (List.length tables) 1) as [E|E];
    repeat split; try assumption; try (intros; congruence); try discriminate.
Qed.

(** ** Attribute helpers *)

Lemma setProperty_new {V} (o : JSObject V) (key : string) (v : V) :
  ~ In key (Object_keys o) -> setProperty o key v = (o ++ [(key, v)])%list.
Proof.
  unfold Object_keys. induction o as [|[k w] o IH]; intros H; [reflexivity|].
  cbn [setProperty app]. destruct (String.eqb k key) eqn:E.
  - apply String.eqb_eq in E. subst. exfalso. apply H. now left.
  - rewrite IH; [reflexivity|]. intros Hin. apply H. now right.
Qed.

(** Entries with distinct keys make the object that lists them. *)
Lemma fromEntries_distinct {V} (entries : list (string * V)) :
  NoDup (map fst entries) -> Object_fromEntries entries = entries.
Proof.
  unfold Object_fromEntries.
  assert (H : forall (o : JSObject V),
             NoDup (map fst (o ++ entries)%list) ->
             fold_left (fun o entry => setProperty o (fst entry) (snd entry)) entries o =
             (o ++ entries)%list).
  { induction entries as [|[k v] entries IH]; intros o Hnd.
    - simpl. now rewrite app_nil_r.
    - cbn [fold_left fst snd]. rewrite setProperty_new.
      + rewrite IH; rewrite <- app_assoc; [reflexivity | exact Hnd].
      + rewrite map_app in Hnd. apply NoDup_remove_2 in Hnd.
        intros Hin. apply Hnd, in_or_app. now left. }
  intros Hnd. exact (H [] Hnd).
Qed.

Lemma filter_keys_distinct {V} (keep : string -> bool) (o : JSObject V) :
  NoDup (map fst o) ->
  NoDup (map fst (filter (fun entry => keep (fst entry)) o)).
Proof.
  induction o as [|[k v] o IH]; intros Hnd; [constructor|].
  inversion Hnd as [|? ? Hk Hrest]; subst. cbn [filter fst].
  destruct (keep k); [|now apply IH].
  cbn [map fst]. constructor; [|now apply IH].
  intros Hin. apply Hk. apply in_map_iff in Hin. destruct Hin as ([k' v'] & <- & Hin).
  apply filter_In in Hin. destruct Hin as [Hin _].
  now apply (in_map fst) in Hin.
Qed.

Lemma own_filter_keys {V} (keep : string -> bool) (o : JSObject V) (key : string) :
  own (filter (fun entry => keep (fst entry)) o) key =
  if keep key then own o key else None.
Proof.
  induction o as [|[k v] o IH]; [now destruct (keep key)|].
  cbn [filter fst own]. destruct (String.eqb k key) eqn:E.
  - apply String.eqb_eq in E. subst k. destruct (keep key) eqn:Ek.
    + cbn [own]. now rewrite String.eqb_refl.
    + exact IH.
  - destruct (keep k); [|exact IH]. cbn [own]. now rewrite E.
Qed.

Lemma getDataAttributes_filter {V} (attributes : JSObject V) (astroProps : list string) :
  distinct_keys attributes ->
  getDataAttributes attributes (Some astroProps) =
  filter (fun entry => negb (JS.array_includes astroProps (fst entry))) attributes.
Proof.
  intros Hnd. unfold getDataAttributes, Object_entries.
  apply fromEntries_distinct.
  exact (filter_keys_distinct (fun k => negb (JS.array_includes astroProps k))
           attributes Hnd).
Qed.

(** X20.  [getDataAttributes] removes exactly the listed properties: a
    listed name is no property of the result, every other property keeps
    its value, the properties stay in their order, and with no list the
    attributes come back as they are. *)
Theorem getDataAttributes_removes_listed {V : Type} (attributes : JSObject V)
    (astroProps : list string) :
  distinct_keys attributes ->
  (forall key,
      own (getDataAttributes attributes (Some astroProps)) key =
      if JS.array_includes astroProps key then None else own attributes key) /\
  subsequence (Object_keys (getDataAttributes attributes (Some astroProps)))
              (Object_keys attributes) /\
  distinct_keys (getDataAttributes attributes (Some astroProps)) /\
  getDataAttributes attributes None = attributes.
Proof.
  intros Hnd. rewrite (getDataAttributes_filter attributes astroProps Hnd).
  split; [|split; [|split]].
  - intros key.
    rewrite (own_filter_keys (fun k => negb (JS.array_includes astroProps k))).
    now destruct (JS.array_includes astroProps key).
  - unfold Object_keys. clear Hnd.
    induction attributes as [|[k v] attributes IH]; [constructor|].
    cbn [filter fst]. destruct (negb (JS.array_includes astroProps k));
      cbn [map fst]; now constructor.
  - exact (filter_keys_distinct (fun k => negb (JS.array_includes astroProps k))
             attributes Hnd).
  - unfold getDataAttributes, Object_entries. cbn [JS.array_includes existsb negb].
    rewrite filter_all by reflexivity. now apply fromEntries_distinct.
Qed.

Lemma getDataAttributes_removes_listed_example :
  own (getDataAttributes [("variant", 1); ("data-id", 2)] (Some ["variant"])) "data-id" =
  Some 2.
Proof.
  refine (proj1 (getDataAttributes_removes_listed
                   [("variant", 1); ("data-id", 2)] ["variant"] _) "data-id").
  repeat constructor; simpl; intuition discriminate.
Defined.

(** X21.  [getButtonDataAttributes] leaves none of the ten component
    properties, keeps every other attribute, and applying it again changes
    nothing. *)
Theorem getButtonDataAttributes_clean {V : Type} (attributes : JSObject V) :
  distinct_keys attributes ->
  (forall key,
      In key ["variant"; "size"; "href"; "icon"; "iconPosition";
              "className"; "type"; "disabled"; "target"; "rel"] ->
      own (getButtonDataAttributes attributes) key = None) /\
  (forall key,
      ~ In key ["variant"; "size"; "href"; "icon"; "iconPosition";
                "className"; "type"; "disabled"; "target"; "rel"] ->
      own (getButtonDataAttributes attributes) key = own attributes key) /\
  getButtonDataAttributes (getButtonDataAttributes attributes) =
  getButtonDataAttributes attributes.
Proof.
  intros Hnd. unfold getButtonDataAttributes.
  set (astroProps := ["variant"; "size"; "href"; "icon"; "iconPosition";
                      "className"; "type"; "disabled"; "target"; "rel"]).
  pose proof (filter_keys_distinct (fun k => negb (JS.array_includes astroProps k))
                attributes Hnd) as Hnd'.
  rewrite (getDataAttributes_filter attributes astroProps Hnd).
  split; [|split].
  - intros key Hkey.
    rewrite (own_filter_keys (fun k => negb (JS.array_includes astroProps k))).
    now rewrite (proj2 (array_includes_In astroProps key) Hkey).
  - intros key Hkey.
    rewrite (own_filter_keys (fun k => negb (JS.array_includes astroProps k))).
    now rewrite (proj2 (array_includes_not_In astroProps key) Hkey).
  - rewrite getDataAttributes_filter by exact Hnd'.
    apply filter_all. intros entry Hentry. apply filter_In in Hentry. tauto.
Qed.

Lemma getButtonDataAttributes_clean_example :
  own (getButtonDataAttributes [("variant", 1); ("data-id", 2)]) "variant" = None.
Proof.
  refine (proj1 (getButtonDataAttributes_clean [("variant", 1); ("data-id", 2)] _)
            "variant" _).
  - repeat constructor; simpl; intuition discriminate.
  - simpl. auto.
Defined.

(** ** The Colab snippet *)

Lemma expandReplacement_plain (matched before after replacement : string) :
  JS.includes replacement "$" = false ->
  expandReplacement matched before after replacement = replacement.
Proof.
  induction replacement as [|c replacement IH]; [reflexivity|].
  rewrite includes_char_cons. intros H. apply orb_false_iff in H.
  destruct H as [Hc H]. cbn [expandReplacement].
  rewrite Ascii.eqb_sym, Hc. now rewrite IH.
Qed.

(** A replacement without [$] is inserted as it is. *)
Lemma replaceAllFrom_plain (pattern replacement : string) :
  JS.includes replacement "$" = false ->
  forall (s : string) (skip : nat) (before : string),
    replaceAllFrom pattern replacement skip before s =
    substituteFrom pattern replacement skip s.
Proof.
  intros Hplain. induction s as [|c s IH]; intros skip before; [reflexivity|].
  cbn [replaceAllFrom substituteFrom]. destruct skip as [|skip]; [|apply IH].
  destruct (JS.startsWith (String c s) pattern).
  - now rewrite expandReplacement_plain, IH.
  - now rewrite IH.
Qed.

(** A text without the first character of the pattern is passed over. *)
Lemma substituteFrom_passes (first : ascii) (pattern value text rest : string) :
  JS.includes text (String first EmptyString) = false ->
  substituteFrom (String first pattern) value 0 (text ++ rest) =
  text ++ substituteFrom (String first pattern) value 0 rest.
Proof.
  induction text as [|c text IH]; [reflexivity|].
  rewrite includes_char_cons. intros H. apply orb_false_iff in H.
  destruct H as [Hc H]. cbn [append substituteFrom JS.startsWith].
  now rewrite Hc, IH.
Qed.

(** X22.  With a project id and a table id that are not empty and have no
    [$], and a project id without ['{'], the snippet is the template with
    its [{PROJECT_ID}] replaced by the project id and both of its
    [{TABLE_ID}] by the table id: in the assignments to [PROJECT_ID] and
    [TABLE_ID], and in the FROM clause of the query. *)
Theorem generateColabSnippet_fills_template (tableId projectId : string) :
  projectId <> EmptyString -> tableId <> EmptyString ->
  JS.includes projectId "$" = false -> JS.includes tableId "$" = false ->
  JS.includes projectId "{" = false ->
  generateColabSnippet (Some tableId) (Some projectId) =
  snippetHead ++ projectId ++ snippetMiddle1 ++ tableId ++ snippetMiddle2 ++
  tableId ++ snippetTail /\
  SNIPPET_TEMPLATE =
  snippetHead ++ "{PROJECT_ID}" ++ snippetMiddle1 ++ "{TABLE_ID}" ++ snippetMiddle2 ++
  "{TABLE_ID}" ++ snippetTail /\
  ends_with snippetHead ("PROJECT_ID = " ++ JS.DQ) /\
  snippetMiddle1 = JS.DQ ++ JS.LF ++ "TABLE_ID = " ++ JS.DQ /\
  ends_with snippetMiddle2 ("FROM `") /\
  JS.includes snippetTail "{TABLE_ID}" = false /\
  JS.includes snippetTail "{PROJECT_ID}" = false.
Proof.
  intros Hproject Htable Hp Ht Hbrace. split.
  - unfold generateColabSnippet, replaceTemplateValues, replaceAll.
    cbn [fold_left fst snd PLACEHOLDERS].
    replace (or_else (Some projectId) DEFAULT_SNIPPET_VALUES.projectId) with projectId
      by (destruct projectId; [congruence | reflexivity]).
    replace (or_else (Some tableId) DEFAULT_SNIPPET_VALUES.tableId) with tableId
      by (destruct tableId; [congruence | reflexivity]).
    rewrite !replaceAllFrom_plain by assumption.
    assert (E1 : substituteFrom "{PROJECT_ID}" projectId 0 SNIPPET_TEMPLATE =
                 (snippetHead ++ projectId) ++
                 afterFirst "{PROJECT_ID}" SNIPPET_TEMPLATE).
    { rewrite append_assoc. vm_compute. reflexivity. }
    assert (E2 : substituteFrom "{TABLE_ID}" tableId 0
                   (afterFirst "{PROJECT_ID}" SNIPPET_TEMPLATE) =
                 snippetMiddle1 ++ tableId ++ snippetMiddle2 ++ tableId ++ snippetTail).
    { vm_compute. reflexivity. }
    rewrite E1, substituteFrom_passes, E2.
    + now rewrite append_assoc.
    + rewrite includes_char_app, Hbrace. reflexivity.
  - split; [vm_compute; reflexivity|].
    split; [exists (beforeFirst ("PROJECT_ID = " ++ JS.DQ) snippetHead);
            vm_compute; reflexivity|].
    split; [vm_compute; reflexivity|].
    split; [exists (beforeFirst "FROM `" snippetMiddle2); vm_compute; reflexivity|].
    split; vm_compute; reflexivity.
Qed.

Lemma generateColabSnippet_fills_template_example :
  generateColabSnippet (Some "rj-iplanrio.sales.orders") (Some "rj-iplanrio") =
  snippetHead ++ "rj-iplanrio" ++ snippetMiddle1 ++ "rj-iplanrio.sales.orders" ++
  snippetMiddle2 ++ "rj-iplanrio.sales.orders" ++ snippetTail.
Proof.
  refine (proj1 (generateColabSnippet_fills_template
                   "rj-iplanrio.sales.orders" "rj-iplanrio" _ _ _ _ _));
    first [discriminate | reflexivity].
Defined.

(** ** The two versions of the query generator *)

(** X23.  The earlier [generateQuery] and the present one produce the same
    query for every selection that is not empty; for the empty selection
    the earlier one leaves the select list empty where the present one
    selects [*]. *)
Theorem generateQuery_versions (projectKey datasetName tableName : string)
    (columnNames : list string) :
  (columnNames <> [] ->
   Legacy.generateQuery projectKey datasetName tableName columnNames =
   generateQuery projectKey datasetName tableName (Some columnNames)) /\
  Legacy.generateQuery projectKey datasetName tableName [] =
  "SELECT" ++ JS.LF ++ "  " ++ JS.LF ++
  "FROM `" ++ projectKey ++ "." ++ datasetName ++ "." ++ tableName ++ "`" ++ JS.LF ++
  "LIMIT 100" /\
  generateQuery projectKey datasetName tableName (Some []) =
  "SELECT" ++ JS.LF ++ "  *" ++ JS.LF ++
  "FROM `" ++ projectKey ++ "." ++ datasetName ++ "." ++ tableName ++ "`" ++ JS.LF ++
  "LIMIT 100" /\
  Legacy.generateQuery projectKey datasetName tableName [] <>
  generateQuery projectKey datasetName tableName (Some []).
Proof.
  split; [|split; [|split]].
  - destruct columnNames as [|c columnNames]; [congruence | reflexivity].
  - reflexivity.
  - reflexivity.
  - discriminate.
Qed.

(** ** The order of the formatted columns *)

Lemma insertIndexed_permutation {V} (entry : string * V) (sorted : list (string * V)) :
  Permutation (insertIndexed entry sorted) (entry :: sorted).
Proof.
  induction sorted as [|next rest IH]; cbn [insertIndexed]; [reflexivity|].
  destruct (indexOf (fst entry) <=? indexOf (fst next))%N; [reflexivity|].
  rewrite IH. apply perm_swap.
Qed.

Lemma sortIndexed_permutation {V} (entries : list (string * V)) :
  Permutation (sortIndexed entries) entries.
Proof.
  induction entries as [|entry entries IH]; cbn [sortIndexed fold_right]; [reflexivity|].
  fold (sortIndexed entries). rewrite insertIndexed_permutation. now constructor.
Qed.

Lemma insertIndexed_sorted {V} (entry : string * V) (sorted : list (string * V)) :
  StronglySorted (fun a b => (indexOf (fst a) <= indexOf (fst b))%N) sorted ->
  StronglySorted (fun a b => (indexOf (fst a) <= indexOf (fst b))%N)
                 (insertIndexed entry sorted).
Proof.
  induction 1 as [|next rest Hrest IH Hnext]; cbn [insertIndexed].
  - repeat constructor.
  - destruct (indexOf (fst entry) <=? indexOf (fst next))%N eqn:E.
    + apply N.leb_le in E. constructor; [now constructor|].
      constructor; [exact E|].
      eapply Forall_impl; [|exact Hnext]. cbv beta. intros other H. lia.
    + apply N.leb_gt in E. constructor; [exact IH|].
      eapply Permutation_Forall;
        [apply Permutation_sym, insertIndexed_permutation|].
      constructor; [lia | exact Hnext].
Qed.

Lemma sortIndexed_sorted {V} (entries : list (string * V)) :
  StronglySorted (fun a b => (indexOf (fst a) <= indexOf (fst b))%N)
                 (sortIndexed entries).
Proof.
  induction entries as [|entry entries IH]; cbn [sortIndexed fold_right];
    [constructor|].
  now apply insertIndexed_sorted.
Qed.

Lemma sorted_keys {V} (entries : list (string * V)) :
  StronglySorted (fun a b => (indexOf (fst a) <= indexOf (fst b))%N) entries ->
  StronglySorted (fun a b => (indexOf a <= indexOf b)%N) (map fst entries).
Proof.
  induction 1 as [|entry entries Hrest IH Hentry]; cbn [map]; constructor;
    [exact IH|].
  apply Forall_map. exact Hentry.
Qed.

Lemma filter_partition {A} (f : A -> bool) (l : list A) :
  Permutation (filter f l ++ filter (fun x => negb (f x)) l) l.
Proof.
  induction l as [|x l IH]; cbn [filter]; [reflexivity|].
  destruct (f x); cbn [negb app].
  - now constructor.
  - rewrite <- Permutation_middle. now constructor.
Qed.

Lemma filter_keys {V} (keep : string -> bool) (entries : list (string * V)) :
  map fst (filter (fun entry => keep (fst entry)) entries) =
  filter keep (map fst entries).
Proof.
  induction entries as [|[k v] entries IH]; [reflexivity|].
  cbn [filter map fst]. destruct (keep k); cbn [map fst]; now rewrite IH.
Qed.

Lemma filter_none {A} (f : A -> bool) (l : list A) :
  (forall x, In x l -> f x = false) -> filter f l = [].
Proof.
  induction l as [|x l IH]; intros H; [reflexivity|].
  cbn [filter]. rewrite (H x (or_introl eq_refl)). apply IH.
  intros y Hy. apply H. now right.
Qed.

(** C8, as stated, fails: with column names that are integers the columns
    come out by ascending number, before the other columns, not in the
    order of insertion. *)
Lemma formatSchema_integer_like_names :
  map FormattedColumn.name
      (formatSchema
         (objectOfMembers
            [("b", {| ColumnInfo.type := "STRING"; ColumnInfo.description := None |});
             ("10", {| ColumnInfo.type := "STRING"; ColumnInfo.description := None |});
             ("2", {| ColumnInfo.type := "STRING"; ColumnInfo.description := None |})])) =
  ["2"; "10"; "b"] /\
  map FormattedColumn.name
      (formatSchema
         (objectOfMembers
            [("b", {| ColumnInfo.type := "STRING"; ColumnInfo.description := None |});
             ("10", {| ColumnInfo.type := "STRING"; ColumnInfo.description := None |});
             ("2", {| ColumnInfo.type := "STRING"; ColumnInfo.description := None |})])) <>
  map fst
      [("b", {| ColumnInfo.type := "STRING"; ColumnInfo.description := None |});
       ("10", {| ColumnInfo.type := "STRING"; ColumnInfo.description := None |});
       ("2", {| ColumnInfo.type := "STRING"; ColumnInfo.description := None |})].
Proof. split; [reflexivity | discriminate]. Qed.

(** C8, amended.  For a schema with distinct column names, [formatSchema]
    emits one formatted column per column of the schema, in the order in
    which the object lists them: the names that are array indices first,
    by ascending number, then the other names in the order of insertion,
    which is the order of insertion of all of them when no name is an
    array index.  Name and type are copied, and the placeholder stands
    exactly for a missing or empty description. *)
Theorem formatSchema_enumeration_order (members : list (string * ColumnInfo.t)) :
  NoDup (map fst members) ->
  Forall2 formatted (Object_entries (objectOfMembers members))
          (formatSchema (objectOfMembers members)) /\
  Permutation (Object_entries (objectOfMembers members)) members /\
  (exists indexed named,
      map FormattedColumn.name (formatSchema (objectOfMembers members)) =
      (indexed ++ named)%list /\
      Permutation indexed (filter isIndex (map fst members)) /\
      StronglySorted (fun a b => (indexOf a <= indexOf b)%N) indexed /\
      named = filter (fun key => negb (isIndex key)) (map fst members)) /\
  ((forall key, In key (map fst members) -> arrayIndex key = None) ->
   map FormattedColumn.name (formatSchema (objectOfMembers members)) = map fst members) /\
  formatSchema
    (objectOfMembers
       [("col1", {| ColumnInfo.type := "STRING"; ColumnInfo.description := None |})]) =
  [{| FormattedColumn.name := "col1"; FormattedColumn.type := "STRING";
      FormattedColumn.description := "Sem descrição" |}].
Proof.
  intros Hnd.
  assert (Eobject : objectOfMembers members =
                    (sortIndexed (filter (fun entry => isIndex (fst entry)) members) ++
                     filter (fun entry => negb (isIndex (fst entry))) members)%list).
  { unfold objectOfMembers, enumerationOrder. now rewrite (fromEntries_distinct members Hnd). }
  assert (Enames : map FormattedColumn.name (formatSchema (objectOfMembers members)) =
                   Object_keys (objectOfMembers members)).
  { apply formatSchema_entries. }
  split; [apply formatSchema_entries|].
  split.
  { unfold Object_entries. rewrite Eobject, sortIndexed_permutation.
    apply filter_partition. }
  split.
  { exists (map fst (sortIndexed (filter (fun entry => isIndex (fst entry)) members))),
           (filter (fun key => negb (isIndex key)) (map fst members)).
    rewrite Enames, Eobject. unfold Object_keys. rewrite map_app.
    split; [|split; [|split]].
    - now rewrite (filter_keys (fun key => negb (isIndex key))).
    - rewrite sortIndexed_permutation. now rewrite (filter_keys isIndex).
    - apply sorted_keys, sortIndexed_sorted.
    - reflexivity. }
  split; [|reflexivity].
  intros Hnone. rewrite Enames, Eobject. unfold Object_keys.
  rewrite filter_none, filter_all.
  - reflexivity.
  - intros [k v] Hin. unfold isIndex. cbn [fst].
    now rewrite (Hnone k (in_map fst members (k, v) Hin)).
  - intros [k v] Hin. unfold isIndex. cbn [fst].
    now rewrite (Hnone k (in_map fst members (k, v) Hin)).
Qed.

Lemma formatSchema_enumeration_order_example :
  map FormattedColumn.name
      (formatSchema
         (objectOfMembers
            [("name", {| ColumnInfo.type := "STRING";
                         ColumnInfo.description := Some "Nome" |});
             ("address", {| ColumnInfo.type := "RECORD";
                            ColumnInfo.description := None |})])) =
  map fst
      [("name", {| ColumnInfo.type := "STRING";
                   ColumnInfo.description := Some "Nome" |});
       ("address", {| ColumnInfo.type := "RECORD";
                      ColumnInfo.description := None |})].
Proof.
  refine (proj1 (proj2 (proj2 (proj2
            (formatSchema_enumeration_order
               [("name", {| ColumnInfo.type := "STRING";
                            ColumnInfo.description := Some "Nome" |});
                ("address", {| ColumnInfo.type := "RECORD";
                               ColumnInfo.description := None |})] _)))) _).
  - repeat constructor; simpl; intuition discriminate.
  - intros key [<- | [<- | []]]; reflexivity.
Defined.
